(** * txmsg-r: the message-detection pipeline of the transaction scanner

    A shallow embedding of the two programs of the repository,
    [src/main.go] (UTF-8 decoding, signature filter, letter-ratio and
    vowel heuristics) and [src/unnamed/part_000] (ASCII-range decoding,
    plain letter heuristic), together with the parts of the Go standard
    library they call ([unicode/utf8], [unicode], [strings],
    [encoding/hex], [regexp] for the one pattern shape that is compiled).

    Go strings and byte slices are sequences of bytes ([list byte]);
    runes are integers ([Z]); lengths and indices are [nat]. *)

From Stdlib Require Import Strings.String Strings.Byte.
From Stdlib Require Import ZArith List Bool Lia Arith.
Import ListNotations.
Local Open Scope Z_scope.

Abbreviation gostring := (list byte) (only parsing).
Abbreviation rune := Z (only parsing).

(** The value of a byte, and Go's conversion [byte(x)] (truncation). *)
Definition b2z (b : byte) : Z := Z.of_N (Byte.to_N b).

Definition z2b (z : Z) : byte :=
  match Byte.of_N (Z.to_N (z mod 256)) with
  | Some b => b
  | None => x00
  end.

(** String literals of the sources, as Go strings. *)
Definition lit (s : string) : gostring := list_byte_of_string s.
Arguments lit s%_string.

Fixpoint bytes_eqb (a b : gostring) : bool :=
  match a, b with
  | [], [] => true
  | x :: a', y :: b' => Byte.eqb x y && bytes_eqb a' b'
  | _, _ => false
  end.

(** A rune of a string together with the bytes that encode it there. *)
Abbreviation chunk := (rune * list byte)%type (only parsing).

Definition flatten (cs : list chunk) : list byte := concat (map snd cs).

(** ** Package unicode/utf8 *)
Module utf8.

Definition RuneError : rune := 0xFFFD.
Definition RuneSelf : Z := 0x80.
Definition MaxRune : rune := 0x10FFFF.
Definition surrogateMin : rune := 0xD800.
Definition surrogateMax : rune := 0xDFFF.

Definition t2 : Z := 0xC0.
Definition t3 : Z := 0xE0.
Definition t4 : Z := 0xF0.
Definition tx : Z := 0x80.
Definition maskx : Z := 0x3F.
Definition mask2 : Z := 0x1F.
Definition mask3 : Z := 0x0F.
Definition mask4 : Z := 0x07.

Definition rune1Max : rune := 0x7F.
Definition rune2Max : rune := 0x7FF.
Definition rune3Max : rune := 0xFFFF.

Definition locb : Z := 0x80.
Definition hicb : Z := 0xBF.

(** Entries of the [first] table: size in the low bits, index into
    [acceptRanges] in the high bits; [xx] invalid, [as_] ASCII. *)
Definition xx : Z := 0xF1.
Definition as_ : Z := 0xF0.
Definition s1 : Z := 0x02.
Definition s2 : Z := 0x13.
Definition s3 : Z := 0x03.
Definition s4 : Z := 0x23.
Definition s5 : Z := 0x34.
Definition s6 : Z := 0x04.
Definition s7 : Z := 0x44.

Definition first (p0 : Z) : Z :=
  if p0 <? 0x80 then as_
  else if p0 <? 0xC2 then xx
  else if p0 <? 0xE0 then s1
  else if p0 =? 0xE0 then s2
  else if p0 <? 0xED then s3
  else if p0 =? 0xED then s4
  else if p0 <? 0xF0 then s3
  else if p0 =? 0xF0 then s5
  else if p0 <? 0xF4 then s6
  else if p0 =? 0xF4 then s7
  else xx.

Definition acceptRanges (i : Z) : Z * Z :=
  if i =? 0 then (locb, hicb)
  else if i =? 1 then (0xA0, hicb)
  else if i =? 2 then (locb, 0x9F)
  else if i =? 3 then (0x90, hicb)
  else if i =? 4 then (locb, 0x8F)
  else (0, 0).

(** [p[i]], read only below [len(p)]. *)
Definition at_ (p : list byte) (i : nat) : Z := b2z (nth i p x00).

Definition DecodeRune (p : list byte) : rune * nat :=
  let n := length p in
  if (n <? 1)%nat then (RuneError, 0%nat)
  else
    let p0 := at_ p 0 in
    let x := first p0 in
    if as_ <=? x then
      ((if x =? as_ then p0 else RuneError), 1%nat)
    else
      let sz := Z.to_nat (Z.land x 7) in
      let accept := acceptRanges (Z.shiftr x 4) in
      if (n <? sz)%nat then (RuneError, 1%nat)
      else
        let b1 := at_ p 1 in
        if (b1 <? fst accept) || (snd accept <? b1) then (RuneError, 1%nat)
        else if (sz <=? 2)%nat then
          (Z.lor (Z.shiftl (Z.land p0 mask2) 6) (Z.land b1 maskx), 2%nat)
        else
          let b2 := at_ p 2 in
          if (b2 <? locb) || (hicb <? b2) then (RuneError, 1%nat)
          else if (sz <=? 3)%nat then
            (Z.lor (Z.lor (Z.shiftl (Z.land p0 mask3) 12)
                          (Z.shiftl (Z.land b1 maskx) 6))
                   (Z.land b2 maskx), 3%nat)
          else
            let b3 := at_ p 3 in
            if (b3 <? locb) || (hicb <? b3) then (RuneError, 1%nat)
            else
              (Z.lor (Z.lor (Z.lor (Z.shiftl (Z.land p0 mask4) 18)
                                   (Z.shiftl (Z.land b1 maskx) 12))
                            (Z.shiftl (Z.land b2 maskx) 6))
                     (Z.land b3 maskx), 4%nat).

(** [AppendRune(nil, r)]: the UTF-8 encoding of [r]; surrogates and
    values out of range are encoded as [RuneError]. *)
Definition EncodeRune (r : rune) : list byte :=
  if (0 <=? r) && (r <=? rune1Max) then [z2b r]
  else if (0 <=? r) && (r <=? rune2Max) then
    [z2b (Z.lor t2 (Z.shiftr r 6)); z2b (Z.lor tx (Z.land r maskx))]
  else
    let enc3 (r : rune) :=
      [z2b (Z.lor t3 (Z.shiftr r 12));
       z2b (Z.lor tx (Z.land (Z.shiftr r 6) maskx));
       z2b (Z.lor tx (Z.land r maskx))] in
    if (r <? 0) || (MaxRune <? r) || ((surrogateMin <=? r) && (r <=? surrogateMax))
    then enc3 RuneError
    else if r <=? rune3Max then enc3 r
    else
      [z2b (Z.lor t4 (Z.shiftr r 18));
       z2b (Z.lor tx (Z.land (Z.shiftr r 12) maskx));
       z2b (Z.lor tx (Z.land (Z.shiftr r 6) maskx));
       z2b (Z.lor tx (Z.land r maskx))].

(** The runes of a string in the order [for i, r := range s] yields
    them, each with the bytes it was decoded from: an invalid byte is
    [RuneError] of width one. *)
Fixpoint runes_fuel (fuel : nat) (s : list byte) : list chunk :=
  match fuel with
  | O => []
  | S f =>
    match s with
    | [] => []
    | _ :: _ =>
      let (r, size) := DecodeRune s in
      (r, firstn size s) :: runes_fuel f (skipn size s)
    end
  end.

Definition runes (s : list byte) : list chunk :=
  runes_fuel (length s) s.

End utf8.

(** ** Package unicode *)
Module unicode.

Definition MaxASCII : rune := 0x7F.
Definition MaxLatin1 : rune := 0xFF.

Definition between (lo hi r : Z) : bool := (lo <=? r) && (r <=? hi).

(** The range tables of the package beyond Latin-1 are data of the
    library, not of this program; they are taken as parameters.
    [Letter_x], [Number_x] stand for [isExcludingLatin(Letter, r)] and
    [isExcludingLatin(Number, r)], [Print_x] for [In(r, PrintRanges...)]
    and [LowerCase_x] for [To(LowerCase, r)]. *)
Class Tables := {
  Letter_x : rune -> bool;
  Number_x : rune -> bool;
  Print_x : rune -> bool;
  LowerCase_x : rune -> rune
}.

(** The Latin-1 part is the [properties] array of the package. *)
Definition latin1 (r : rune) : bool := between 0 MaxLatin1 r.

Definition latin1_letter (r : rune) : bool :=
  between 0x41 0x5A r || between 0x61 0x7A r
  || (r =? 0xAA) || (r =? 0xB5) || (r =? 0xBA)
  || between 0xC0 0xD6 r || between 0xD8 0xF6 r || between 0xF8 0xFF r.

Definition latin1_number (r : rune) : bool :=
  between 0x30 0x39 r || (r =? 0xB2) || (r =? 0xB3) || (r =? 0xB9)
  || between 0xBC 0xBE r.

Definition latin1_print (r : rune) : bool :=
  between 0x20 0x7E r || between 0xA1 0xAC r || between 0xAE 0xFF r.

Definition latin1_control (r : rune) : bool :=
  between 0x00 0x1F r || between 0x7F 0x9F r.

(** The [White_Space] table above Latin-1. *)
Definition White_Space_x (r : rune) : bool :=
  (r =? 0x1680) || between 0x2000 0x200A r || between 0x2028 0x2029 r
  || (r =? 0x202F) || (r =? 0x205F) || (r =? 0x3000).

Definition IsSpace (r : rune) : bool :=
  if latin1 r then
    between 0x09 0x0D r || (r =? 0x20) || (r =? 0x85) || (r =? 0xA0)
  else White_Space_x r.

(** All control characters are below [MaxLatin1]. *)
Definition IsControl (r : rune) : bool :=
  if latin1 r then latin1_control r else false.

Section WithTables.
Context {T : Tables}.

Definition IsLetter (r : rune) : bool :=
  if latin1 r then latin1_letter r else Letter_x r.

Definition IsNumber (r : rune) : bool :=
  if latin1 r then latin1_number r else Number_x r.

Definition IsPrint (r : rune) : bool :=
  if latin1 r then latin1_print r else Print_x r.

Definition ToLower (r : rune) : rune :=
  if r <=? MaxASCII then
    (if between 0x41 0x5A r then r + (0x61 - 0x41) else r)
  else LowerCase_x r.

End WithTables.

(** A table set that knows nothing beyond Latin-1.  On a string of
    Latin-1 runes no function above consults the tables, so this
    instance serves to evaluate the programs on such inputs. *)
Definition Latin1Only : Tables :=
  {| Letter_x := fun _ => false;
     Number_x := fun _ => false;
     Print_x := fun _ => false;
     LowerCase_x := fun r => r |}.

End unicode.

(** ** Package strings *)
Module strings.

(** [FieldsFunc(s, unicode.IsSpace)]: [cur] holds the runes of the field
    being read, from [start] on (empty when [start < 0]); a field is the
    substring its runes span. *)
Fixpoint fields_aux (cur : list chunk) (cs : list chunk) : list (list chunk) :=
  match cs with
  | [] => match cur with [] => [] | _ => [cur] end
  | c :: cs' =>
    if unicode.IsSpace (fst c) then
      match cur with
      | [] => fields_aux [] cs'
      | _ => cur :: fields_aux [] cs'
      end
    else fields_aux (cur ++ [c]) cs'
  end.

Definition Fields (s : gostring) : list gostring :=
  map flatten (fields_aux [] (utf8.runes s)).

Fixpoint Join (elems : list gostring) (sep : gostring) : gostring :=
  match elems with
  | [] => []
  | [e] => e
  | e :: rest => e ++ sep ++ Join rest sep
  end.

End strings.

(** ** Package encoding/hex *)
Module hex.

Definition hextable : gostring := lit "0123456789abcdef".

Definition EncodeToString (src : list byte) : gostring :=
  flat_map (fun v =>
    [nth (Z.to_nat (Z.shiftr (b2z v) 4)) hextable x00;
     nth (Z.to_nat (Z.land (b2z v) 0x0f)) hextable x00]) src.

End hex.

(** ** Package regexp

    Both programs compile one pattern shape, a character class repeated
    at least [n] times ([[...]{n,}]), and call [FindAllString(s, -1)] on
    it.  The search is the engine's: at each start position from the left
    the greedy repetition takes the longest run of class characters; a
    run of at least [n] characters is a match and the search resumes
    behind it, otherwise the search resumes one character further.  The
    input is read rune by rune as [utf8.runes] does. *)
Module regexp.

Record Regexp := {
  class : rune -> bool;
  atLeast : nat
}.

Section Search.
Variable re : Regexp.

Fixpoint greedy (cs : list chunk)
  : list chunk * list chunk :=
  match cs with
  | [] => ([], [])
  | c :: cs' =>
    if class re (fst c) then
      let (m, rest) := greedy cs' in (c :: m, rest)
    else ([], cs)
  end.

Fixpoint find_all (fuel : nat) (cs : list chunk)
  : list (list chunk) :=
  match fuel with
  | O => []
  | S f =>
    match cs with
    | [] => []
    | _ :: cs' =>
      let (m, rest) := greedy cs in
      if (atLeast re <=? length m)%nat then m :: find_all f rest
      else find_all f cs'
    end
  end.

Definition FindAllString (s : gostring) : list gostring :=
  map flatten (find_all (length (utf8.runes s)) (utf8.runes s)).

End Search.

(** Perl class [\s]. *)
Definition perl_space (r : rune) : bool :=
  (r =? 0x09) || (r =? 0x0A) || (r =? 0x0C) || (r =? 0x0D) || (r =? 0x20).

End regexp.

(** ** The ledger source, and what the programs print

    [To] is [None] for a contract-creation transaction ([tx.To()] is a
    nil pointer); [Hash] and the address stand for their [Hex()]
    strings.  [BlockByNumber] gives the transactions of the block or the
    error of the fetch. *)
Record Transaction := {
  Hash : gostring;
  To : option gostring;
  Data : list byte
}.

Record Client := {
  BlockByNumber : Z -> list Transaction + gostring
}.

(** Output lines are kept as format and arguments; the verbs of [fmt]
    are not rendered. *)
Inductive line :=
| LBlock (blockNum : Z)                          (* "\nBlock %d\n" *)
| LTx (hash : gostring) (msgs : list gostring)   (* "Tx: %s\nPossible messages:\n" and "  - %q\n" each *)
| LBlockTx (blockNum : Z) (hash : gostring)      (* "\nBlock %d | Tx: %s\n" *)
| LFrom (addr : gostring)                        (* "From:" addr *)
| LPossible                                      (* "Possible messages:" *)
| LMsg (msg : gostring).                         (* "  -" msg *)

Inductive event :=
| EvFetch (blockNum : Z)                         (* client.BlockByNumber *)
| EvLog (blockNum : Z) (err : gostring)          (* log.Printf("Block %d fetch error: %v") *)
| EvPrint (l : line)                             (* fmt.Printf / fmt.Println *)
| EvSleep (ms : Z).                              (* time.Sleep *)

(** A computation emits events and then returns a value, or panics
    ([None]) after the events emitted so far. *)
Definition IO (A : Type) : Type := list event * option A.

Definition ret {A} (a : A) : IO A := ([], Some a).
Definition emit (e : event) : IO unit := ([e], Some tt).
Definition panic {A} : IO A := ([], None).

Definition bind {A B} (m : IO A) (k : A -> IO B) : IO B :=
  match m with
  | (es, Some a) => let (es', r) := k a in (es ++ es', r)
  | (es, None) => (es, None)
  end.

Notation "x <- m ;; k" := (bind m (fun x => k))
  (at level 61, m at next level, right associativity).
Notation "m ;;; k" := (bind m (fun _ => k))
  (at level 61, right associativity).

Fixpoint forEach {A} (xs : list A) (body : A -> IO unit) : IO unit :=
  match xs with
  | [] => ret tt
  | x :: xs' => body x ;;; forEach xs' body
  end.

(** [int64] arithmetic wraps around. *)
Definition wrap64 (z : Z) : Z := (z + 2^63) mod 2^64 - 2^63.

(** [float64(a) / float64(b) >= c] for integer counts [a], [b] and a
    decimal constant [c = cn/cd]: the quotient is compared exactly, and a
    zero denominator gives NaN (for [0/0], never [>=] anything) or an
    infinity.  Rounding of the quotient to 53 bits is not modelled; it
    cannot change the comparison for counts below 2^50. *)
Inductive quotient :=
| QFin (num den : Z)
| QNaN
| QInf (positive : bool).

Definition fdiv (a b : Z) : quotient :=
  if b =? 0 then
    (if a =? 0 then QNaN else QInf (0 <? a))
  else QFin a b.

Definition fge (q : quotient) (cn cd : Z) : bool :=
  match q with
  | QFin a b => if 0 <? b then cn * b <=? a * cd else a * cd <=? cn * b
  | QNaN => false
  | QInf pos => pos
  end.

(** * src/main.go *)
Module main_go.

(** Configuration *)
Definition scanDepth : Z := 100.
Definition minMsgLength : nat := 4.
Definition minWordLength : nat := 3.
Definition minWords : nat := 2.
(** [letterRatio = 0.6], as the fraction 6/10. *)
Definition letterRatio_num : Z := 6.
Definition letterRatio_den : Z := 10.

(** Common Ethereum function signatures, keyed by the hex of the first
    four bytes of call data. *)
Definition functionSignatures : list (gostring * gostring) :=
  [ (lit "a9059cbb", lit "ERC20 transfer");
    (lit "23b872dd", lit "ERC20 transferFrom");
    (lit "095ea7b3", lit "ERC20 approve");
    (lit "42842e0e", lit "ERC721 safeTransferFrom");
    (lit "b88d4fde", lit "ERC721 safeTransferFrom with data");
    (lit "a22cb465", lit "setApprovalForAll");
    (lit "6352211e", lit "ownerOf (ERC721)");
    (lit "70a08231", lit "balanceOf");
    (lit "06fdde03", lit "name()");
    (lit "95d89b41", lit "symbol()") ].

(** [_, exists := m[key]] *)
Definition map_lookup (m : list (gostring * gostring)) (key : gostring)
  : option gostring :=
  match find (fun kv => bytes_eqb (fst kv) key) m with
  | Some kv => Some (snd kv)
  | None => None
  end.

Definition isContractCall (data : list byte) : bool :=
  if (length data <? 4)%nat then false
  else
    let sig := hex.EncodeToString (firstn 4 data) in
    match map_lookup functionSignatures sig with
    | Some _ => true
    | None => false
    end.

Section WithTables.
Context {T : unicode.Tables}.

(** [msgPattern], compiled from [[\p{L}\p{N}\s]{4,}]. *)
Definition msgPattern : regexp.Regexp :=
  {| regexp.class := fun r =>
       unicode.IsLetter r || unicode.IsNumber r || regexp.perl_space r;
     regexp.atLeast := minMsgLength |}.

(** The loop of [decodeUTF8]: [sb] is the builder. *)
Fixpoint decodeUTF8_loop (fuel : nat) (data sb : list byte) : list byte :=
  match fuel with
  | O => sb
  | S f =>
    match data with
    | [] => sb
    | _ :: _ =>
      let (r, size) := utf8.DecodeRune data in
      if r =? utf8.RuneError then decodeUTF8_loop f (skipn 1 data) sb
      else
        let sb' := if unicode.IsPrint r then sb ++ utf8.EncodeRune r else sb in
        decodeUTF8_loop f (skipn size data) sb'
    end
  end.

Definition decodeUTF8 (data : list byte) : gostring :=
  strings.Join
    (strings.Fields (decodeUTF8_loop (length data) data []))
    (lit " ").

Definition hasLetters (s : gostring) : bool :=
  existsb (fun c => unicode.IsLetter (fst c)) (utf8.runes s).

Definition isVowel (r : rune) : bool :=
  let l := unicode.ToLower r in
  (l =? 0x61) || (l =? 0x65) || (l =? 0x69) || (l =? 0x6F) || (l =? 0x75).

Definition hasVowel (s : gostring) : bool :=
  existsb (fun c => isVowel (fst c)) (utf8.runes s).

Definition validWord (word : gostring) : bool :=
  (minWordLength <=? length word)%nat && hasLetters word && hasVowel word.

Definition hasValidWords (words : list gostring) : bool :=
  let validWords :=
    fold_left (fun n word => if validWord word then S n else n) words O in
  (minWords <=? validWords)%nat.

(** The counting loop of [isValidMessage]: (letterCount, totalChars). *)
Definition countChars (s : gostring) : Z * Z :=
  fold_left (fun (acc : Z * Z) (c : chunk) =>
    let (letterCount, totalChars) := acc in
    let letterCount := if unicode.IsLetter (fst c) then letterCount + 1 else letterCount in
    let totalChars := if negb (unicode.IsSpace (fst c)) then totalChars + 1 else totalChars in
    (letterCount, totalChars)) (utf8.runes s) (0, 0).

Definition isValidMessage (s : gostring) : bool :=
  let words := strings.Fields s in
  if (length words <? minWords)%nat then false
  else
    let (letterCount, totalChars) := countChars s in
    fge (fdiv letterCount totalChars) letterRatio_num letterRatio_den
    && hasValidWords words.

(** [matches] as [analyzeTransaction] computes them; nothing is matched
    on the path that returns before decoding. *)
Definition analyzeTransaction_matches (data : list byte)
    (pattern : regexp.Regexp) : list gostring :=
  if (length data =? 0)%nat || isContractCall data then []
  else regexp.FindAllString pattern (decodeUTF8 data).

Definition analyzeTransaction (tx : Transaction) (pattern : regexp.Regexp)
  : list gostring :=
  let data := Data tx in
  if (length data =? 0)%nat || isContractCall data then []
  else
    let utf8Data := decodeUTF8 data in
    let matches := regexp.FindAllString pattern utf8Data in
    if (length matches =? 0)%nat then []
    else filter isValidMessage matches.

Definition processBlock (client : Client) (blockNum : Z)
    (pattern : regexp.Regexp) : IO unit :=
  emit (EvFetch blockNum) ;;;
  match BlockByNumber client blockNum with
  | inr err => emit (EvLog blockNum err)
  | inl txs =>
    let blockOutputs :=
      flat_map (fun tx =>
        let validMessages := analyzeTransaction tx pattern in
        if (0 <? length validMessages)%nat
        then [LTx (Hash tx) validMessages] else []) txs in
    if (0 <? length blockOutputs)%nat then
      emit (EvPrint (LBlock blockNum)) ;;;
      forEach blockOutputs (fun out => emit (EvPrint out))
    else ret tt
  end.

(** The loop of [main], counting down from [endBlock]; [None] when the
    fuel runs out before the loop ends. *)
Fixpoint scan_loop (fuel : nat) (client : Client) (blockNum startBlock : Z)
  : option (IO unit) :=
  match fuel with
  | O => None
  | S f =>
    if startBlock <=? blockNum then
      match scan_loop f client (wrap64 (blockNum - 1)) startBlock with
      | Some rest =>
        Some (processBlock client blockNum msgPattern ;;;
              emit (EvSleep 250) ;;; rest)
      | None => None
      end
    else Some (ret tt)
  end.

(** [main] from the head block number on. *)
Definition scan (fuel : nat) (client : Client) (head : Z) : option (IO unit) :=
  let endBlock := head in
  let startBlock := wrap64 (endBlock - scanDepth) in
  scan_loop fuel client endBlock startBlock.

End WithTables.
End main_go.

(** * src/unnamed/part_000 *)
Module part_000.

(** Configuration *)
Definition scanDepth : Z := 100.
Definition minMsgLength : nat := 4.
Definition asciiPrintable : Z := 32.
Definition asciiMax : Z := 126.
Definition minWordLength : nat := 3.
Definition minWords : nat := 2.

(** [msgPattern], compiled from [[a-zA-Z0-9 ]{4,}]. *)
Definition msgPattern : regexp.Regexp :=
  {| regexp.class := fun r =>
       unicode.between 0x61 0x7A r || unicode.between 0x41 0x5A r
       || unicode.between 0x30 0x39 r || (r =? 0x20);
     regexp.atLeast := minMsgLength |}.

Definition filterPrintable (data : list byte) : gostring :=
  let sb :=
    map (fun b =>
      if (asciiPrintable <=? b2z b) && (b2z b <=? asciiMax) then b
      else x20) data in
  strings.Join (strings.Fields sb) (lit " ").

Section WithTables.
Context {T : unicode.Tables}.

Definition hasLetters (s : gostring) : bool :=
  existsb (fun c => unicode.IsLetter (fst c)) (utf8.runes s).

Definition validWord (word : gostring) : bool :=
  (minWordLength <=? length word)%nat && hasLetters word.

Definition isMeaningful (s : gostring) : bool :=
  let words := strings.Fields s in
  if (length words <? minWords)%nat then false
  else
    let validWords :=
      fold_left (fun n word => if validWord word then S n else n) words O in
    (minWords <=? validWords)%nat.

(** [tx.To().Hex()]: the method has a value receiver, so the call
    dereferences the pointer [tx.To()] and panics when it is nil. *)
Definition To_Hex (tx : Transaction) : IO gostring :=
  match To tx with
  | Some addr => ret addr
  | None => panic
  end.

(** The loop of [printResults], threading [hasShownInfo]. *)
Fixpoint printResults_loop (tx : Transaction) (blockNum : Z)
    (messages : list gostring) (hasShownInfo : bool) : IO unit :=
  match messages with
  | [] => ret tt
  | msg :: rest =>
    if isMeaningful msg then
      (if negb hasShownInfo then
         emit (EvPrint (LBlockTx blockNum (Hash tx))) ;;;
         addr <- To_Hex tx ;;
         emit (EvPrint (LFrom addr)) ;;;
         emit (EvPrint LPossible)
       else ret tt) ;;;
      emit (EvPrint (LMsg msg)) ;;;
      printResults_loop tx blockNum rest true
    else printResults_loop tx blockNum rest hasShownInfo
  end.

Definition printResults (tx : Transaction) (blockNum : Z)
    (messages : list gostring) : IO unit :=
  printResults_loop tx blockNum messages false.

(** [matches] as [analyzeTransaction] computes them. *)
Definition analyzeTransaction_matches (data : list byte)
    (pattern : regexp.Regexp) : list gostring :=
  if (length data =? 0)%nat then []
  else regexp.FindAllString pattern (filterPrintable data).

Definition analyzeTransaction (tx : Transaction) (blockNum : Z)
    (pattern : regexp.Regexp) : IO unit :=
  let data := Data tx in
  if (length data =? 0)%nat then ret tt
  else
    let cleanData := filterPrintable data in
    let matches := regexp.FindAllString pattern cleanData in
    if (0 <? length matches)%nat then printResults tx blockNum matches
    else ret tt.

Definition processBlock (client : Client) (blockNum : Z)
    (pattern : regexp.Regexp) : IO unit :=
  emit (EvFetch blockNum) ;;;
  match BlockByNumber client blockNum with
  | inr err => emit (EvLog blockNum err)
  | inl txs => forEach txs (fun tx => analyzeTransaction tx blockNum pattern)
  end.

(** The loop of [main], counting up to [endBlock]; [None] when the fuel
    runs out before the loop ends. *)
Fixpoint scan_loop (fuel : nat) (client : Client) (blockNum endBlock : Z)
  : option (IO unit) :=
  match fuel with
  | O => None
  | S f =>
    if blockNum <=? endBlock then
      match scan_loop f client (wrap64 (blockNum + 1)) endBlock with
      | Some rest =>
        Some (emit (EvSleep 100) ;;;
              processBlock client blockNum msgPattern ;;; rest)
      | None => None
      end
    else Some (ret tt)
  end.

(** [main] from the head block number on. *)
Definition scan (fuel : nat) (client : Client) (head : Z) : option (IO unit) :=
  let endBlock := head in
  let startBlock := wrap64 (endBlock - scanDepth) in
  scan_loop fuel client startBlock endBlock.

End WithTables.
End part_000.

(** * Auxiliary definitions for the proofs *)

(** UTF-8 decoding by cases on the lead byte, with the value of the
    rune written arithmetically; [utf8.DecodeRune] is shown equal to it. *)
Module utf8_spec.

Definition isCont (lo hi : Z) (b : byte) : bool :=
  (lo <=? b2z b) && (b2z b <=? hi).

Definition payload (b : byte) : Z := b2z b - 0x80.

Definition decode (p : list byte) : rune * nat :=
  match p with
  | [] => (utf8.RuneError, 0%nat)
  | b0 :: t =>
    let p0 := b2z b0 in
    if p0 <? 0x80 then (p0, 1%nat)
    else if p0 <? 0xC2 then (utf8.RuneError, 1%nat)
    else if p0 <? 0xE0 then
      match t with
      | b1 :: _ =>
        if isCont 0x80 0xBF b1
        then ((p0 - 0xC0) * 64 + payload b1, 2%nat)
        else (utf8.RuneError, 1%nat)
      | _ => (utf8.RuneError, 1%nat)
      end
    else if p0 <? 0xF0 then
      match t with
      | b1 :: b2 :: _ =>
        if isCont (if p0 =? 0xE0 then 0xA0 else 0x80)
                  (if p0 =? 0xED then 0x9F else 0xBF) b1
           && isCont 0x80 0xBF b2
        then (((p0 - 0xE0) * 64 + payload b1) * 64 + payload b2, 3%nat)
        else (utf8.RuneError, 1%nat)
      | _ => (utf8.RuneError, 1%nat)
      end
    else if p0 <? 0xF5 then
      match t with
      | b1 :: b2 :: b3 :: _ =>
        if isCont (if p0 =? 0xF0 then 0x90 else 0x80)
                  (if p0 =? 0xF4 then 0x8F else 0xBF) b1
           && isCont 0x80 0xBF b2 && isCont 0x80 0xBF b3
        then ((((p0 - 0xF0) * 64 + payload b1) * 64 + payload b2) * 64
              + payload b3, 4%nat)
        else (utf8.RuneError, 1%nat)
      | _ => (utf8.RuneError, 1%nat)
      end
    else (utf8.RuneError, 1%nat)
  end.

End utf8_spec.


(** A chunk whose bytes decode to its rune whatever follows them. *)
Definition Valid (c : chunk) : Prop :=
  snd c <> [] /\
  forall rest, utf8_spec.decode (snd c ++ rest) = (fst c, length (snd c)).

(** The chunk of an ASCII space, and [strings.Join(_, " ")] on chunks. *)
Definition spc : chunk := (0x20, [x20]).

Fixpoint joinC (ws : list (list chunk)) : list chunk :=
  match ws with
  | [] => []
  | [w] => w
  | w :: rest => w ++ spc :: joinC rest
  end.

Definition nosp (c : chunk) : Prop := unicode.IsSpace (fst c) = false.

(** A field: at least one rune, none of them white space. *)
Definition word (w : list chunk) : Prop := w <> [] /\ Forall nosp w.

(** The number of valid words of a candidate, as each classifier counts
    them: [main_go] asks for a vowel, [part_000] does not. *)
Definition validWords_strong {T : unicode.Tables} (s : gostring) : nat :=
  length (filter main_go.validWord (strings.Fields s)).

Definition validWords_light {T : unicode.Tables} (s : gostring) : nat :=
  length (filter part_000.validWord (strings.Fields s)).

(** A string without white space. *)
Definition noSpace (w : gostring) : bool :=
  forallb (fun c : chunk => negb (unicode.IsSpace (fst c))) (utf8.runes w).

(** A string of white space only. *)
Definition allSpace (s : gostring) : bool :=
  forallb (fun c : chunk => unicode.IsSpace (fst c)) (utf8.runes s).

(** No two white-space runes next to each other. *)
Fixpoint noSpaceRun (rs : list rune) : bool :=
  match rs with
  | a :: (b :: _) as t =>
    negb (unicode.IsSpace a && unicode.IsSpace b) && noSpaceRun t
  | _ => true
  end.

(** What the decoders promise of their output: no control character,
    no white space other than the space character, no two spaces in a
    row, no space at either end. *)
Definition tidy (s : gostring) : bool :=
  let rs := map fst (utf8.runes s) in
  forallb (fun r => negb (unicode.IsControl r)) rs
  && forallb (fun r => negb (unicode.IsSpace r) || (r =? 0x20)) rs
  && noSpaceRun rs
  && negb (unicode.IsSpace (hd 0 rs))
  && negb (unicode.IsSpace (last rs 0)).

(** A rune that is not a control character. *)
Definition plain (c : chunk) : Prop := unicode.IsControl (fst c) = false.

(** A rune as [decodeUTF8] writes it to its builder. *)
Definition good {T : unicode.Tables} (c : chunk) : Prop :=
  Valid c
  /\ snd c = utf8.EncodeRune (fst c)
  /\ fst c <> utf8.RuneError
  /\ unicode.IsPrint (fst c) = true.

(** A byte that [filterPrintable] keeps. *)
Definition printableByte (b : byte) : bool :=
  (part_000.asciiPrintable <=? b2z b) && (b2z b <=? part_000.asciiMax).

(** The bytes [filterPrintable] passes to [strings.Fields], as chunks. *)
Definition asciiChunks (sb : list byte) : list chunk :=
  map (fun b => (b2z b, [b])) sb.

Definition keep (b : byte) : byte := if printableByte b then b else x20.

Definition asciiGood (c : chunk) : Prop :=
  exists b, c = (b2z b, [b]) /\ printableByte b = true.

(** ** What an extraction is

    The runes of a string, cut from left to right into gaps and matches
    of the pattern [[class]{n,}].  A gap is made of runs of class runes
    shorter than [n], each closed by a rune outside the class. *)
Section Extraction.
Variable re : regexp.Regexp.

Definition inClass (c : chunk) : Prop := regexp.class re (fst c) = true.

(** Nothing, or a rune outside the class, comes first. *)
Definition starts_out (cs : list chunk) : Prop :=
  match cs with
  | [] => True
  | c :: _ => regexp.class re (fst c) = false
  end.

Inductive Gap : list chunk -> Prop :=
| Gap_nil : Gap []
| Gap_block (m : list chunk) (c : chunk) (g : list chunk) :
    Forall inClass m -> (length m < regexp.atLeast re)%nat ->
    regexp.class re (fst c) = false ->
    Gap g -> Gap (m ++ c :: g).

(** [Extraction cs ms]: [ms] are, in order, the maximal runs of class
    runes of [cs] that have at least [n] runes.  Each match starts
    behind the gap that follows the match before it, so no rune belongs
    to two matches; a match is followed by the end of the string or by a
    rune outside the class, and preceded by a gap, which is empty or
    ends with a rune outside the class. *)
Inductive Extraction : list chunk -> list (list chunk) -> Prop :=
| Ex_last (g t : list chunk) :
    Gap g -> Forall inClass t -> (length t < regexp.atLeast re)%nat ->
    Extraction (g ++ t) []
| Ex_match (g m rest : list chunk) (ms : list (list chunk)) :
    Gap g -> Forall inClass m -> (regexp.atLeast re <= length m)%nat ->
    starts_out rest -> Extraction rest ms ->
    Extraction (g ++ m ++ rest) (m :: ms).

(** The search with fuel for every rune. *)
Definition findAll (cs : list chunk) : list (list chunk) :=
  regexp.find_all re (length cs) cs.

End Extraction.

(** [weave [g0; g1; ...; gk] [m1; ...; mk] = g0 ++ m1 ++ g1 ++ ... ++ mk ++ gk]. *)
Fixpoint weave {A} (gaps ms : list (list A)) : list A :=
  match gaps with
  | [] => []
  | g :: gaps' =>
    match ms with
    | [] => g
    | m :: ms' => g ++ m ++ weave gaps' ms'
    end
  end.

(** What the candidate extractor owes for a string [s]: the candidates
    are the bytes of the matches of an extraction of the runes of [s];
    spelled out, they lie in [s] one behind the other between gaps, and
    each has at least [n] bytes. *)
Definition extracts (re : regexp.Regexp) (s : gostring)
    (cands : list gostring) : Prop :=
  (exists ms, cands = map flatten ms /\ Extraction re (utf8.runes s) ms)
  /\ (exists gaps, length gaps = S (length cands) /\ s = weave gaps cands)
  /\ Forall (fun c => (regexp.atLeast re <= length c)%nat) cands.

(** The payload has four bytes or more and the hex of the first four is
    a key of the Signature Table. *)
Definition matchesSignature (data : list byte) : Prop :=
  (4 <= length data)%nat
  /\ In (hex.EncodeToString (firstn 4 data)) (map fst main_go.functionSignatures).

(** ** Reading a trace of the scan *)

Definition isFetchOf (n : Z) (e : event) : bool :=
  match e with EvFetch m => m =? n | _ => false end.

Definition isLogOf (n : Z) (e : event) : bool :=
  match e with EvLog m _ => m =? n | _ => false end.

Definition fetches (n : Z) (tr : list event) : nat :=
  length (filter (isFetchOf n) tr).

Definition logs (n : Z) (tr : list event) : nat :=
  length (filter (isLogOf n) tr).

(** [k] block numbers downwards from [from], and upwards from [from]. *)
Fixpoint countDown (k : nat) (from : Z) : list Z :=
  match k with
  | O => []
  | S k' => from :: countDown k' (from - 1)
  end.

Fixpoint countUp (k : nat) (from : Z) : list Z :=
  match k with
  | O => []
  | S k' => from :: countUp k' (from + 1)
  end.

(** The iterations of a loop over block numbers, one after the other. *)
Fixpoint runBlocks (body : Z -> IO unit) (bs : list Z) : IO unit :=
  match bs with
  | [] => ret tt
  | b :: bs' => body b ;;; runBlocks body bs'
  end.

(** One iteration of the loop of [main] in each program. *)
Definition main_go_iteration {T : unicode.Tables} (client : Client)
    (blockNum : Z) : IO unit :=
  main_go.processBlock client blockNum main_go.msgPattern ;;;
  emit (EvSleep 250).

Definition part_000_iteration {T : unicode.Tables} (client : Client)
    (blockNum : Z) : IO unit :=
  emit (EvSleep 100) ;;;
  part_000.processBlock client blockNum part_000.msgPattern.

(** The head block numbers for which neither loop counter wraps. *)
Definition headInRange (head : Z) : Prop :=
  - 2^63 + 100 < head < 2^63 - 1.

(** An event that is neither a fetch of block [n] nor a log about it. *)
Definition quiet (n : Z) (e : event) : Prop :=
  isFetchOf n e = false /\ isLogOf n e = false.

Definition isPrint (e : event) : Prop := exists l, e = EvPrint l.

(** A ledger whose block 150 cannot be fetched and whose other blocks
    are empty. *)
Definition failingClient : Client :=
  {| BlockByNumber := fun n =>
       if n =? 150 then inr (lit "timeout") else inl [] |}.


(** ** Further notions for the pipeline *)

(** The four-byte prefixes whose hex forms are the keys of
    [functionSignatures], in the order of the table. *)
Definition selectors : list (list byte) :=
  [ [xa9; x05; x9c; xbb]; [x23; xb8; x72; xdd]; [x09; x5e; xa7; xb3];
    [x42; x84; x2e; x0e]; [xb8; x8d; x4f; xde]; [xa2; x2c; xb4; x65];
    [x63; x52; x21; x1e]; [x70; xa0; x82; x31]; [x06; xfd; xde; x03];
    [x95; xd8; x9b; x41] ].

(** The value of a digit of [hex.hextable], and the byte two digits
    spell. *)
Definition hexValue (c : byte) : Z :=
  if (0x30 <=? b2z c) && (b2z c <=? 0x39) then b2z c - 0x30
  else b2z c - 0x61 + 10.

Fixpoint unhex (s : gostring) : list byte :=
  match s with
  | hi :: lo :: rest => z2b (hexValue hi * 16 + hexValue lo) :: unhex rest
  | _ => []
  end.

(** What [printResults] prints for a transaction with destination
    [addr] and accepted messages [msgs]: nothing when there are none,
    else three header lines and a line for each message. *)
Definition report (blockNum : Z) (hash addr : gostring) (msgs : list gostring)
  : list event :=
  match msgs with
  | [] => []
  | _ :: _ =>
    EvPrint (LBlockTx blockNum hash) :: EvPrint (LFrom addr)
    :: EvPrint LPossible :: map (fun m => EvPrint (LMsg m)) msgs
  end.

(** The events by which a scan paces itself: fetches and pauses. *)
Definition isPacing (e : event) : bool :=
  match e with
  | EvFetch _ | EvSleep _ => true
  | _ => false
  end.

(** Every transaction the ledger can return has a destination address. *)
Definition allHaveDestination (client : Client) : Prop :=
  forall n txs, BlockByNumber client n = inl txs ->
                Forall (fun tx => To tx <> None) txs.


(** * Properties *)

(** ** Bytes and bit operations *)

Lemma b2z_range (b : byte) : 0 <= b2z b < 256.
Proof.
  unfold b2z. pose proof (Byte.to_N_bounded b). lia.
Qed.

Lemma z2b_b2z (b : byte) : z2b (b2z b) = b.
Proof.
  unfold z2b. pose proof (b2z_range b) as H.
  rewrite Z.mod_small by lia. unfold b2z.
  rewrite N2Z.id, Byte.of_to_N. reflexivity.
Qed.

Lemma land_mul_pow2_small (a c k : Z) :
  0 <= k -> 0 <= c < 2 ^ k -> Z.land (a * 2 ^ k) c = 0.
Proof.
  intros Hk Hc. apply Z.bits_inj'. intros n Hn.
  rewrite Z.land_spec, Z.bits_0.
  destruct (Z.ltb_spec n k).
  - rewrite Z.mul_pow2_bits_low by lia. reflexivity.
  - rewrite <- (Z.mod_small c (2 ^ k)) by lia.
    rewrite Z.mod_pow2_bits_high by lia. apply andb_false_r.
Qed.

Lemma lor_mul_pow2_add (a c k : Z) :
  0 <= k -> 0 <= c < 2 ^ k -> Z.lor (a * 2 ^ k) c = a * 2 ^ k + c.
Proof.
  intros Hk Hc.
  rewrite <- Z.lxor_lor by (apply land_mul_pow2_small; assumption).
  symmetry. apply Z.add_nocarry_lxor.
  apply land_mul_pow2_small; assumption.
Qed.

Lemma land_ones_mod (a k : Z) : 0 <= k -> Z.land a (2 ^ k - 1) = a mod 2 ^ k.
Proof.
  intros Hk. rewrite <- Z.land_ones by assumption.
  rewrite Z.ones_equiv. f_equal; lia.
Qed.

Lemma lor_add_small (x c k : Z) :
  0 <= k -> x mod 2 ^ k = 0 -> 0 <= c < 2 ^ k -> Z.lor x c = x + c.
Proof.
  intros Hk Hx Hc.
  assert (E : x = x / 2 ^ k * 2 ^ k).
  { pose proof (Z.div_mod x (2 ^ k)). lia. }
  rewrite E at 1 2. rewrite lor_mul_pow2_add by assumption. reflexivity.
Qed.

Ltac bits_to_arith :=
  unfold utf8.mask2, utf8.mask3, utf8.mask4, utf8.maskx,
         utf8.t2, utf8.t3, utf8.t4, utf8.tx;
  change 0x1F with (2 ^ 5 - 1); change 0x0F with (2 ^ 4 - 1);
  change 0x07 with (2 ^ 3 - 1); change 0x3F with (2 ^ 6 - 1);
  rewrite ?land_ones_mod by lia;
  rewrite ?Z.shiftl_mul_pow2 by lia;
  rewrite ?Z.shiftr_div_pow2 by lia;
  change (2 ^ 3) with 8; change (2 ^ 4) with 16; change (2 ^ 5) with 32;
  change (2 ^ 6) with 64; change (2 ^ 12) with 4096;
  change (2 ^ 18) with 262144.

Lemma rune2_arith (p0 b1 : Z) :
  0xC0 <= p0 < 0xE0 -> 0x80 <= b1 <= 0xBF ->
  Z.lor (Z.shiftl (Z.land p0 utf8.mask2) 6) (Z.land b1 utf8.maskx)
  = (p0 - 0xC0) * 64 + (b1 - 0x80).
Proof.
  intros H0 H1. bits_to_arith.
  rewrite (lor_add_small _ _ 6) by (change (2 ^ 6) with 64; Z.div_mod_to_equations; lia).
  Z.div_mod_to_equations. lia.
Qed.

Lemma rune3_arith (p0 b1 b2 : Z) :
  0xE0 <= p0 < 0xF0 -> 0x80 <= b1 <= 0xBF -> 0x80 <= b2 <= 0xBF ->
  Z.lor (Z.lor (Z.shiftl (Z.land p0 utf8.mask3) 12)
               (Z.shiftl (Z.land b1 utf8.maskx) 6))
        (Z.land b2 utf8.maskx)
  = ((p0 - 0xE0) * 64 + (b1 - 0x80)) * 64 + (b2 - 0x80).
Proof.
  intros H0 H1 H2. bits_to_arith.
  rewrite (lor_add_small (_ * 4096) _ 12) by (change (2 ^ 12) with 4096; Z.div_mod_to_equations; lia).
  rewrite (lor_add_small _ _ 6) by (change (2 ^ 6) with 64; Z.div_mod_to_equations; lia).
  Z.div_mod_to_equations. lia.
Qed.

Lemma rune4_arith (p0 b1 b2 b3 : Z) :
  0xF0 <= p0 < 0xF8 -> 0x80 <= b1 <= 0xBF -> 0x80 <= b2 <= 0xBF ->
  0x80 <= b3 <= 0xBF ->
  Z.lor (Z.lor (Z.lor (Z.shiftl (Z.land p0 utf8.mask4) 18)
                      (Z.shiftl (Z.land b1 utf8.maskx) 12))
               (Z.shiftl (Z.land b2 utf8.maskx) 6))
        (Z.land b3 utf8.maskx)
  = (((p0 - 0xF0) * 64 + (b1 - 0x80)) * 64 + (b2 - 0x80)) * 64 + (b3 - 0x80).
Proof.
  intros H0 H1 H2 H3. bits_to_arith.
  rewrite (lor_add_small (_ * 262144) _ 18) by (change (2 ^ 18) with 262144; Z.div_mod_to_equations; lia).
  rewrite (lor_add_small _ (_ * 64) 12) by (change (2 ^ 12) with 4096; Z.div_mod_to_equations; lia).
  rewrite (lor_add_small _ _ 6) by (change (2 ^ 6) with 64; Z.div_mod_to_equations; lia).
  Z.div_mod_to_equations. lia.
Qed.

(** ** UTF-8 decoding and encoding *)

Ltac zcase :=
  match goal with
  | |- context [ ?a <? ?b ] => destruct (Z.ltb_spec a b)
  | |- context [ ?a <=? ?b ] => destruct (Z.leb_spec a b)
  | |- context [ ?a =? ?b ] => destruct (Z.eqb_spec a b)
  end.

Lemma first_cases (p0 : Z) :
  utf8.first p0 =
    if p0 <? 0x80 then utf8.as_
    else if p0 <? 0xC2 then utf8.xx
    else if p0 <? 0xE0 then utf8.s1
    else if p0 <? 0xF0 then
      (if p0 =? 0xE0 then utf8.s2 else if p0 =? 0xED then utf8.s4 else utf8.s3)
    else if p0 <? 0xF5 then
      (if p0 =? 0xF0 then utf8.s5 else if p0 =? 0xF4 then utf8.s7 else utf8.s6)
    else utf8.xx.
Proof.
  unfold utf8.first. repeat zcase; try reflexivity; lia.
Qed.

Lemma DecodeRune_decode (p : list byte) :
  utf8.DecodeRune p = utf8_spec.decode p.
Proof.
  destruct p as [|b0 t]; [reflexivity|].
  unfold utf8.DecodeRune, utf8_spec.decode.
  change (length (b0 :: t) <? 1)%nat with false. cbv iota.
  unfold utf8.at_. cbn [nth].
  pose proof (b2z_range b0) as R0.
  rewrite first_cases. cbv zeta.
  destruct (Z.ltb_spec (b2z b0) 0x80); [reflexivity|].
  destruct (Z.ltb_spec (b2z b0) 0xC2); [reflexivity|].
  destruct (Z.ltb_spec (b2z b0) 0xE0).
  { (* two bytes *)
    change (utf8.as_ <=? utf8.s1) with false. cbv iota.
    change (Z.to_nat (Z.land utf8.s1 7)) with 2%nat.
    change (utf8.acceptRanges (Z.shiftr utf8.s1 4)) with (0x80, 0xBF).
    destruct t as [|b1 t]; [reflexivity|].
    change (length (b0 :: b1 :: t) <? 2)%nat with false.
    cbn [fst snd nth Nat.leb]. cbv iota.
    unfold utf8_spec.isCont, utf8_spec.payload.
    pose proof (b2z_range b1).
    repeat zcase; cbn [orb andb]; try reflexivity; try lia.
    f_equal. apply rune2_arith; lia. }
  destruct (Z.ltb_spec (b2z b0) 0xF0).
  { (* three bytes *)
    assert (E : exists x lo hi, 
      (if b2z b0 =? 0xE0 then utf8.s2 else if b2z b0 =? 0xED then utf8.s4 else utf8.s3) = x
      /\ (utf8.as_ <=? x) = false /\ Z.to_nat (Z.land x 7) = 3%nat
      /\ utf8.acceptRanges (Z.shiftr x 4) = (lo, hi)
      /\ lo = (if b2z b0 =? 0xE0 then 0xA0 else 0x80)
      /\ hi = (if b2z b0 =? 0xED then 0x9F else 0xBF)).
    { repeat zcase; try lia; do 3 eexists; repeat split. }
    destruct E as (x & lo & hi & -> & -> & -> & -> & Elo & Ehi).
    rewrite <- Elo, <- Ehi.
    assert (0x80 <= lo /\ hi <= 0xBF) by (subst; repeat zcase; lia).
    clear Elo Ehi.
    destruct t as [|b1 [|b2 t]]; try reflexivity.
    change (length (b0 :: b1 :: b2 :: t) <? 3)%nat with false.
    cbn [fst snd nth Nat.leb]. cbv iota.
    unfold utf8_spec.isCont, utf8_spec.payload, utf8.locb, utf8.hicb.
    pose proof (b2z_range b1). pose proof (b2z_range b2).
    repeat zcase; cbn [orb andb]; try reflexivity; try lia.
    f_equal. apply rune3_arith; lia. }
  destruct (Z.ltb_spec (b2z b0) 0xF5); [|reflexivity].
  assert (E : exists x lo hi, 
    (if b2z b0 =? 0xF0 then utf8.s5 else if b2z b0 =? 0xF4 then utf8.s7 else utf8.s6) = x
    /\ (utf8.as_ <=? x) = false /\ Z.to_nat (Z.land x 7) = 4%nat
    /\ utf8.acceptRanges (Z.shiftr x 4) = (lo, hi)
    /\ lo = (if b2z b0 =? 0xF0 then 0x90 else 0x80)
    /\ hi = (if b2z b0 =? 0xF4 then 0x8F else 0xBF)).
  { repeat zcase; try lia; do 3 eexists; repeat split. }
  destruct E as (x & lo & hi & -> & -> & -> & -> & Elo & Ehi).
  rewrite <- Elo, <- Ehi.
  assert (0x80 <= lo /\ hi <= 0xBF) by (subst; repeat zcase; lia).
  clear Elo Ehi.
  destruct t as [|b1 [|b2 [|b3 t]]]; try reflexivity.
  change (length (b0 :: b1 :: b2 :: b3 :: t) <? 4)%nat with false.
  cbn [fst snd nth Nat.leb]. cbv iota.
  unfold utf8_spec.isCont, utf8_spec.payload, utf8.locb, utf8.hicb.
  pose proof (b2z_range b1). pose proof (b2z_range b2). pose proof (b2z_range b3).
  repeat zcase; cbn [orb andb]; try reflexivity; try lia.
  f_equal. apply rune4_arith; lia.
Qed.

Lemma z2b_eq (z : Z) (b : byte) : z = b2z b -> z2b z = b.
Proof. intros ->. apply z2b_b2z. Qed.

Ltac enc_byte :=
  apply z2b_eq; bits_to_arith;
  rewrite ?(lor_add_small 192 _ 6), ?(lor_add_small 224 _ 5),
          ?(lor_add_small 240 _ 4), ?(lor_add_small 128 _ 7)
    by (try reflexivity; try lia;
        change (2 ^ 7) with 128;
        Z.div_mod_to_equations; lia);
  Z.div_mod_to_equations; lia.

Lemma encode2 (b0 b1 : byte) :
  0xC2 <= b2z b0 < 0xE0 -> 0x80 <= b2z b1 <= 0xBF ->
  utf8.EncodeRune ((b2z b0 - 0xC0) * 64 + utf8_spec.payload b1) = [b0; b1].
Proof.
  intros H0 H1. unfold utf8_spec.payload, utf8.EncodeRune.
  unfold utf8.rune1Max, utf8.rune2Max.
  set (r := (b2z b0 - 0xC0) * 64 + (b2z b1 - 0x80)).
  assert (Hr : 0x80 <= r <= 0x7FF) by (unfold r; lia).
  destruct (Z.leb_spec 0 r); [|lia].
  destruct (Z.leb_spec r 0x7F); [lia|].
  destruct (Z.leb_spec r 0x7FF); [|lia].
  cbn [andb]. unfold r in *. clear r.
  f_equal; [|f_equal]; enc_byte.
Qed.

Lemma encode3 (b0 b1 b2 : byte) :
  0xE0 <= b2z b0 < 0xF0 ->
  (if b2z b0 =? 0xE0 then 0xA0 else 0x80) <= b2z b1
     <= (if b2z b0 =? 0xED then 0x9F else 0xBF) ->
  0x80 <= b2z b2 <= 0xBF ->
  utf8.EncodeRune (((b2z b0 - 0xE0) * 64 + utf8_spec.payload b1) * 64
                   + utf8_spec.payload b2) = [b0; b1; b2].
Proof.
  intros H0 H1 H2. unfold utf8_spec.payload, utf8.EncodeRune.
  unfold utf8.rune1Max, utf8.rune2Max, utf8.rune3Max, utf8.MaxRune,
    utf8.surrogateMin, utf8.surrogateMax.
  set (r := ((b2z b0 - 0xE0) * 64 + (b2z b1 - 0x80)) * 64 + (b2z b2 - 0x80)).
  assert (Hr : 0x800 <= r <= 0xFFFF /\ ~ (0xD800 <= r <= 0xDFFF)).
  { unfold r. destruct (Z.eqb_spec (b2z b0) 0xE0), (Z.eqb_spec (b2z b0) 0xED); lia. }
  destruct (Z.leb_spec 0 r); [|lia].
  destruct (Z.leb_spec r 0x7F); [lia|].
  destruct (Z.leb_spec r 0x7FF); [lia|].
  destruct (Z.ltb_spec r 0); [lia|].
  destruct (Z.ltb_spec 0x10FFFF r); [lia|].
  destruct (Z.leb_spec r 0xFFFF); [|lia].
  assert (E : (0xD800 <=? r) && (r <=? 0xDFFF) = false).
  { destruct (Z.leb_spec 0xD800 r), (Z.leb_spec r 0xDFFF); try reflexivity; lia. }
  rewrite E. cbn [andb orb].
  assert (0x80 <= b2z b1 <= 0xBF).
  { destruct (Z.eqb_spec (b2z b0) 0xE0), (Z.eqb_spec (b2z b0) 0xED); lia. }
  unfold r in *. clear r E.
  f_equal; [|f_equal; [|f_equal]]; enc_byte.
Qed.

Lemma encode4 (b0 b1 b2 b3 : byte) :
  0xF0 <= b2z b0 < 0xF5 ->
  (if b2z b0 =? 0xF0 then 0x90 else 0x80) <= b2z b1
     <= (if b2z b0 =? 0xF4 then 0x8F else 0xBF) ->
  0x80 <= b2z b2 <= 0xBF -> 0x80 <= b2z b3 <= 0xBF ->
  utf8.EncodeRune ((((b2z b0 - 0xF0) * 64 + utf8_spec.payload b1) * 64
                    + utf8_spec.payload b2) * 64 + utf8_spec.payload b3)
  = [b0; b1; b2; b3].
Proof.
  intros H0 H1 H2 H3. unfold utf8_spec.payload, utf8.EncodeRune.
  unfold utf8.rune1Max, utf8.rune2Max, utf8.rune3Max, utf8.MaxRune,
    utf8.surrogateMin, utf8.surrogateMax.
  set (r := (((b2z b0 - 0xF0) * 64 + (b2z b1 - 0x80)) * 64
             + (b2z b2 - 0x80)) * 64 + (b2z b3 - 0x80)).
  assert (Hr : 0x10000 <= r <= 0x10FFFF).
  { unfold r. destruct (Z.eqb_spec (b2z b0) 0xF0), (Z.eqb_spec (b2z b0) 0xF4); lia. }
  destruct (Z.leb_spec 0 r); [|lia].
  destruct (Z.leb_spec r 0x7F); [lia|].
  destruct (Z.leb_spec r 0x7FF); [lia|].
  destruct (Z.ltb_spec r 0); [lia|].
  destruct (Z.ltb_spec 0x10FFFF r); [lia|].
  destruct (Z.leb_spec r 0xFFFF); [lia|].
  destruct (Z.leb_spec 0xD800 r); [|lia].
  destruct (Z.leb_spec r 0xDFFF); [lia|].
  cbn [andb orb].
  assert (0x80 <= b2z b1 <= 0xBF).
  { destruct (Z.eqb_spec (b2z b0) 0xF0), (Z.eqb_spec (b2z b0) 0xF4); lia. }
  unfold r in *. clear r.
  f_equal; [|f_equal; [|f_equal; [|f_equal]]]; enc_byte.
Qed.

Ltac contcase :=
  match goal with
  | |- context [ utf8_spec.isCont ?lo ?hi ?b ] =>
    let E := fresh "E" in
    destruct (utf8_spec.isCont lo hi b) eqn:E
  end.

Lemma isCont_true lo hi b :
  utf8_spec.isCont lo hi b = true -> lo <= b2z b <= hi.
Proof. unfold utf8_spec.isCont. intros H. apply andb_prop in H. lia. Qed.

Lemma isCont_ascii lo hi b :
  0x80 <= lo -> b2z b < 0x80 -> utf8_spec.isCont lo hi b = false.
Proof.
  intros. unfold utf8_spec.isCont.
  destruct (Z.leb_spec lo (b2z b)); [lia|reflexivity].
Qed.

Lemma decode_size (b : byte) (t : list byte) :
  (1 <= snd (utf8_spec.decode (b :: t)) <= length (b :: t))%nat.
Proof.
  unfold utf8_spec.decode.
  destruct t as [|b1 [|b2 [|b3 t]]]; cbn [length];
    repeat zcase; repeat contcase; cbn [andb snd]; lia.
Qed.

Lemma decode_valid (p : list byte) (r : rune) (n : nat) :
  utf8_spec.decode p = (r, n) -> r <> utf8.RuneError ->
  utf8.EncodeRune r = firstn n p
  /\ forall rest, utf8_spec.decode (firstn n p ++ rest) = (r, n).
Proof.
  destruct p as [|b0 t]; [cbn; intros [= <- <-]; congruence|].
  unfold utf8_spec.decode at 1.
  pose proof (b2z_range b0).
  destruct (Z.ltb_spec (b2z b0) 0x80) as [A|A].
  { intros [= <- <-] _. split.
    - unfold utf8.EncodeRune, utf8.rune1Max.
      destruct (Z.leb_spec 0 (b2z b0)); [|lia].
      destruct (Z.leb_spec (b2z b0) 0x7F); [|lia].
      cbn. now rewrite z2b_b2z.
    - intros rest. cbn [firstn app]. unfold utf8_spec.decode.
      destruct (Z.ltb_spec (b2z b0) 0x80); [reflexivity|lia]. }
  destruct (Z.ltb_spec (b2z b0) 0xC2) as [B|B]; [intros [= <- <-]; congruence|].
  destruct (Z.ltb_spec (b2z b0) 0xE0) as [C|C].
  { destruct t as [|b1 t]; [intros [= <- <-]; congruence|].
    destruct (utf8_spec.isCont 128 191 b1) eqn:E1; [|intros [= <- <-]; congruence].
    intros [= <- <-] _. pose proof (isCont_true _ _ _ E1). split.
    - apply encode2; lia.
    - intros rest. cbn [firstn app]. unfold utf8_spec.decode.
      destruct (Z.ltb_spec (b2z b0) 0x80); [lia|].
      destruct (Z.ltb_spec (b2z b0) 0xC2); [lia|].
      destruct (Z.ltb_spec (b2z b0) 0xE0); [|lia].
      now rewrite E1. }
  destruct (Z.ltb_spec (b2z b0) 0xF0) as [D|D].
  { destruct t as [|b1 [|b2 t]]; try (intros [= <- <-]; congruence).
    match goal with |- context [utf8_spec.isCont ?lo ?hi b1] =>
      destruct (utf8_spec.isCont lo hi b1) eqn:E1 end;
      [|intros [= <- <-]; congruence].
    destruct (utf8_spec.isCont 128 191 b2) eqn:E2; [|intros [= <- <-]; congruence].
    cbn [andb]. intros [= <- <-] _.
    pose proof (isCont_true _ _ _ E1). pose proof (isCont_true _ _ _ E2). split.
    - apply encode3; lia.
    - intros rest. cbn [firstn app]. unfold utf8_spec.decode.
      destruct (Z.ltb_spec (b2z b0) 0x80); [lia|].
      destruct (Z.ltb_spec (b2z b0) 0xC2); [lia|].
      destruct (Z.ltb_spec (b2z b0) 0xE0); [lia|].
      destruct (Z.ltb_spec (b2z b0) 0xF0); [|lia].
      now rewrite E1, E2. }
  destruct (Z.ltb_spec (b2z b0) 0xF5) as [F|F]; [|intros [= <- <-]; congruence].
  destruct t as [|b1 [|b2 [|b3 t]]]; try (intros [= <- <-]; congruence).
  match goal with |- context [utf8_spec.isCont ?lo ?hi b1] =>
    destruct (utf8_spec.isCont lo hi b1) eqn:E1 end;
    [|intros [= <- <-]; congruence].
  destruct (utf8_spec.isCont 128 191 b2) eqn:E2; [|intros [= <- <-]; congruence].
  destruct (utf8_spec.isCont 128 191 b3) eqn:E3; [|intros [= <- <-]; congruence].
  cbn [andb]. intros [= <- <-] _.
  pose proof (isCont_true _ _ _ E1). pose proof (isCont_true _ _ _ E2).
  pose proof (isCont_true _ _ _ E3). split.
  - apply encode4; lia.
  - intros rest. cbn [firstn app]. unfold utf8_spec.decode.
    destruct (Z.ltb_spec (b2z b0) 0x80); [lia|].
    destruct (Z.ltb_spec (b2z b0) 0xC2); [lia|].
    destruct (Z.ltb_spec (b2z b0) 0xE0); [lia|].
    destruct (Z.ltb_spec (b2z b0) 0xF0); [lia|].
    destruct (Z.ltb_spec (b2z b0) 0xF5); [|lia].
    now rewrite E1, E2, E3.
Qed.

Lemma decode_app_ascii (b0 : byte) (t : list byte) (b : byte) (u : list byte) :
  b2z b < 0x80 ->
  utf8_spec.decode ((b0 :: t) ++ b :: u) = utf8_spec.decode (b0 :: t).
Proof.
  intros Hb. unfold utf8_spec.decode. cbn [app].
  destruct (Z.ltb_spec (b2z b0) 0x80); [reflexivity|].
  destruct (Z.ltb_spec (b2z b0) 0xC2); [reflexivity|].
  destruct (Z.ltb_spec (b2z b0) 0xE0).
  { destruct t as [|b1 t]; cbn [app]; [|reflexivity].
    now rewrite isCont_ascii by lia. }
  destruct (Z.ltb_spec (b2z b0) 0xF0).
  { destruct t as [|b1 [|b2 t]]; cbn [app]; try reflexivity.
    - destruct u; [reflexivity|].
      rewrite isCont_ascii by (try assumption; repeat zcase; lia). reflexivity.
    - rewrite (isCont_ascii 128 191 b) by lia. now rewrite andb_false_r. }
  destruct (Z.ltb_spec (b2z b0) 0xF5); [|reflexivity].
  destruct t as [|b1 [|b2 [|b3 t]]]; cbn [app]; try reflexivity.
  - destruct u as [|u1 [|u2 u]]; try reflexivity.
    rewrite isCont_ascii by (try assumption; repeat zcase; lia). reflexivity.
  - destruct u as [|u1 u]; try reflexivity.
    rewrite (isCont_ascii 128 191 b) by lia. now rewrite andb_false_r.
  - rewrite (isCont_ascii 128 191 b) by lia. now rewrite andb_false_r.
Qed.

(** ** The runes of a string *)

Lemma runes_fuel_indep (f1 f2 : nat) (s : list byte) :
  (length s <= f1)%nat -> (length s <= f2)%nat ->
  utf8.runes_fuel f1 s = utf8.runes_fuel f2 s.
Proof.
  revert f2 s. induction f1 as [|f1 IH]; intros f2 s H1 H2.
  - destruct s; [|cbn in H1; lia]. destruct f2; reflexivity.
  - destruct f2 as [|f2]; [destruct s; [reflexivity|cbn in H2; lia]|].
    destruct s as [|b t]; [reflexivity|].
    cbn [utf8.runes_fuel]. rewrite DecodeRune_decode.
    pose proof (decode_size b t) as Hs.
    destruct (utf8_spec.decode (b :: t)) as [r n]. cbn [snd] in Hs.
    f_equal. apply IH; rewrite length_skipn; cbn [length] in *; lia.
Qed.

Lemma runes_nil : utf8.runes [] = [].
Proof. reflexivity. Qed.

Lemma runes_cons (b : byte) (t : list byte) :
  utf8.runes (b :: t) =
  (fst (utf8_spec.decode (b :: t)),
   firstn (snd (utf8_spec.decode (b :: t))) (b :: t))
  :: utf8.runes (skipn (snd (utf8_spec.decode (b :: t))) (b :: t)).
Proof.
  unfold utf8.runes at 1. cbn [length utf8.runes_fuel].
  rewrite DecodeRune_decode.
  pose proof (decode_size b t) as Hs.
  destruct (utf8_spec.decode (b :: t)) as [r n]. cbn [fst snd] in *.
  f_equal. apply runes_fuel_indep; rewrite length_skipn; cbn [length] in *; lia.
Qed.

(** Induction along the decoding of a string. *)
Lemma runes_ind (P : list byte -> Prop) :
  P [] ->
  (forall b t,
     P (skipn (snd (utf8_spec.decode (b :: t))) (b :: t)) -> P (b :: t)) ->
  forall s, P s.
Proof.
  intros H0 Hstep s.
  remember (length s) as n eqn:En.
  revert s En. induction n as [n IH] using lt_wf_ind. intros s En.
  destruct s as [|b t]; [exact H0|].
  apply Hstep. pose proof (decode_size b t) as Hs.
  eapply IH; [|reflexivity]. rewrite length_skipn. subst n. cbn [length] in *. lia.
Qed.

Lemma flatten_cons (c : chunk) (cs : list chunk) :
  flatten (c :: cs) = snd c ++ flatten cs.
Proof. reflexivity. Qed.

Lemma flatten_app (cs1 cs2 : list chunk) :
  flatten (cs1 ++ cs2) = flatten cs1 ++ flatten cs2.
Proof. unfold flatten. now rewrite map_app, concat_app. Qed.

Lemma flatten_runes (s : list byte) : flatten (utf8.runes s) = s.
Proof.
  induction s as [|b t IH] using runes_ind; [reflexivity|].
  rewrite runes_cons, flatten_cons. cbn [snd]. rewrite IH.
  apply firstn_skipn.
Qed.

Lemma runes_nonempty (s : list byte) :
  Forall (fun c : chunk => snd c <> []) (utf8.runes s).
Proof.
  induction s as [|b t IH] using runes_ind; [constructor|].
  rewrite runes_cons. constructor; [|exact IH]. cbn [snd].
  pose proof (decode_size b t) as Hs.
  destruct (snd (utf8_spec.decode (b :: t))); [lia|discriminate].
Qed.

Lemma runes_app_ascii (s : list byte) (b : byte) (t : list byte) :
  b2z b < 0x80 ->
  utf8.runes (s ++ b :: t) = utf8.runes s ++ utf8.runes (b :: t).
Proof.
  intros Hb. induction s as [|b0 t0 IH] using runes_ind; [reflexivity|].
  change ((b0 :: t0) ++ b :: t) with (b0 :: (t0 ++ b :: t)).
  rewrite (runes_cons b0 (t0 ++ b :: t)), (runes_cons b0 t0).
  change (b0 :: (t0 ++ b :: t)) with ((b0 :: t0) ++ b :: t).
  rewrite decode_app_ascii by assumption.
  pose proof (decode_size b0 t0) as Hs.
  set (n := snd (utf8_spec.decode (b0 :: t0))) in *.
  rewrite firstn_app, skipn_app.
  replace (n - length (b0 :: t0))%nat with 0%nat by lia.
  cbn [firstn skipn]. rewrite app_nil_r, IH. reflexivity.
Qed.

Lemma decode_ascii (b : byte) (t : list byte) :
  b2z b < 0x80 -> utf8_spec.decode (b :: t) = (b2z b, 1%nat).
Proof.
  intros Hb. unfold utf8_spec.decode.
  destruct (Z.ltb_spec (b2z b) 0x80); [reflexivity|lia].
Qed.

Lemma runes_ascii_cons (b : byte) (t : list byte) :
  b2z b < 0x80 -> utf8.runes (b :: t) = (b2z b, [b]) :: utf8.runes t.
Proof.
  intros Hb. rewrite runes_cons, decode_ascii by assumption. reflexivity.
Qed.

Lemma Valid_ascii (b : byte) : b2z b < 0x80 -> Valid (b2z b, [b]).
Proof.
  intros Hb. split; [discriminate|]. intros rest. now apply decode_ascii.
Qed.

Lemma Valid_encode (p : list byte) (r : rune) (n : nat) :
  utf8_spec.decode p = (r, n) -> r <> utf8.RuneError ->
  Valid (r, utf8.EncodeRune r).
Proof.
  intros Hd Hr. destruct (decode_valid p r n Hd Hr) as [He Hp].
  assert (Hn : length (firstn n p) = n).
  { destruct p as [|b t]; [cbn in Hd; congruence|].
    pose proof (decode_size b t) as Hs. rewrite Hd in Hs. cbn [snd] in Hs.
    rewrite length_firstn. lia. }
  split; cbn [fst snd]; rewrite He.
  - intros E. rewrite E in Hn. cbn in Hn. subst n.
    destruct p as [|b t]; [cbn in Hd; congruence|].
    pose proof (decode_size b t) as Hs. rewrite Hd in Hs. cbn in Hs. lia.
  - intros rest. rewrite Hn. apply Hp.
Qed.

Lemma runes_valid_app (cs : list chunk) (rest : list byte) :
  Forall Valid cs -> utf8.runes (flatten cs ++ rest) = cs ++ utf8.runes rest.
Proof.
  induction 1 as [|c cs [Hne Hd] _ IH]; [reflexivity|].
  rewrite flatten_cons, <- app_assoc.
  destruct c as [r bs]. cbn [fst snd] in *.
  destruct bs as [|b bs]; [congruence|].
  change ((b :: bs) ++ flatten cs ++ rest) with (b :: (bs ++ flatten cs ++ rest)).
  rewrite runes_cons.
  change (b :: (bs ++ flatten cs ++ rest)) with ((b :: bs) ++ flatten cs ++ rest).
  rewrite Hd. cbn [fst snd].
  rewrite firstn_app, skipn_app, Nat.sub_diag, firstn_all, skipn_all.
  cbn [firstn skipn app]. rewrite app_nil_r, IH. reflexivity.
Qed.

Lemma runes_valid (cs : list chunk) :
  Forall Valid cs -> utf8.runes (flatten cs) = cs.
Proof.
  intros H. rewrite <- (app_nil_r (flatten cs)).
  rewrite runes_valid_app by assumption. now rewrite runes_nil, app_nil_r.
Qed.

(** ** strings.Fields and strings.Join *)

Lemma fields_aux_app_space (cur cs : list chunk) (sp : chunk) (rest : list chunk) :
  unicode.IsSpace (fst sp) = true ->
  strings.fields_aux cur (cs ++ sp :: rest)
  = strings.fields_aux cur cs ++ strings.fields_aux [] rest.
Proof.
  intros Hsp. revert cur. induction cs as [|c cs IH]; intros cur.
  - cbn [app strings.fields_aux]. rewrite Hsp. destruct cur; reflexivity.
  - cbn [app strings.fields_aux].
    destruct (unicode.IsSpace (fst c)).
    + destruct cur; rewrite IH; reflexivity.
    + apply IH.
Qed.

Lemma fields_aux_word (cur w : list chunk) :
  Forall nosp w ->
  strings.fields_aux cur w = match cur ++ w with [] => [] | _ => [cur ++ w] end.
Proof.
  intros H. revert cur. induction H as [|c w Hc _ IH]; intros cur.
  - cbn [strings.fields_aux]. rewrite app_nil_r. reflexivity.
  - cbn [strings.fields_aux]. unfold nosp in Hc. rewrite Hc, IH.
    rewrite <- app_assoc. reflexivity.
Qed.

Lemma fields_aux_words (cur cs : list chunk) :
  Forall nosp cur -> Forall word (strings.fields_aux cur cs).
Proof.
  revert cur. induction cs as [|c cs IH]; intros cur Hcur.
  - cbn. destruct cur; constructor; [|constructor]. split; [discriminate|exact Hcur].
  - cbn [strings.fields_aux]. destruct (unicode.IsSpace (fst c)) eqn:E.
    + destruct cur.
      * apply IH. constructor.
      * constructor; [split; [discriminate|exact Hcur]|]. apply IH. constructor.
    + apply IH. apply Forall_app. split; [exact Hcur|]. constructor; [exact E|constructor].
Qed.

Lemma fields_aux_Forall (P : chunk -> Prop) (cur cs : list chunk) :
  Forall P cur -> Forall P cs -> Forall (Forall P) (strings.fields_aux cur cs).
Proof.
  intros Hcur Hcs. revert cur Hcur.
  induction Hcs as [|c cs Hc _ IH]; intros cur Hcur.
  - cbn. destruct cur; constructor; [exact Hcur|constructor].
  - cbn [strings.fields_aux]. destruct (unicode.IsSpace (fst c)).
    + destruct cur.
      * apply IH. constructor.
      * constructor; [exact Hcur|]. apply IH. constructor.
    + apply IH. apply Forall_app. split; [exact Hcur|]. constructor; [exact Hc|constructor].
Qed.

Lemma fields_aux_joinC (ws : list (list chunk)) :
  Forall word ws -> strings.fields_aux [] (joinC ws) = ws.
Proof.
  induction 1 as [|w ws [Hne Hw] Hws IH]; [reflexivity|].
  destruct ws as [|w' ws].
  - cbn [joinC]. rewrite fields_aux_word by assumption.
    cbn [app]. destruct w; [congruence|reflexivity].
  - change (joinC (w :: w' :: ws)) with (w ++ spc :: joinC (w' :: ws)).
    rewrite fields_aux_app_space by reflexivity.
    rewrite IH, fields_aux_word by assumption.
    cbn [app]. destruct w; [congruence|reflexivity].
Qed.

(** The number of fields is at most the number of runes that are not
    white space. *)
Lemma fields_aux_length (cur cs : list chunk) :
  (length (strings.fields_aux cur cs)
   <= (match cur with [] => 0 | _ => 1 end)
      + length (filter (fun c => negb (unicode.IsSpace (fst c))) cs))%nat.
Proof.
  revert cur. induction cs as [|c cs IH]; intros cur.
  - cbn. destruct cur; cbn; lia.
  - cbn [strings.fields_aux filter]. destruct (unicode.IsSpace (fst c)); cbn [negb].
    + destruct cur; [apply IH|]. cbn [length]. specialize (IH []). cbn in IH. lia.
    + specialize (IH (cur ++ [c])). cbn [length].
      destruct (cur ++ [c]) eqn:E; [destruct cur; discriminate|]. destruct cur; lia.
Qed.

Lemma Join_flatten (ws : list (list chunk)) :
  strings.Join (map flatten ws) (lit " ") = flatten (joinC ws).
Proof.
  induction ws as [|w ws IH]; [reflexivity|].
  destruct ws as [|w' ws]; [reflexivity|].
  change (joinC (w :: w' :: ws)) with (w ++ spc :: joinC (w' :: ws)).
  rewrite flatten_app, flatten_cons, <- IH. reflexivity.
Qed.

Lemma Fields_valid (cs : list chunk) :
  Forall Valid cs -> strings.Fields (flatten cs) = map flatten (strings.fields_aux [] cs).
Proof.
  intros H. unfold strings.Fields. now rewrite runes_valid.
Qed.

Lemma Valid_spc : Valid spc.
Proof. apply (Valid_ascii x20). reflexivity. Qed.

Lemma joinC_Forall (P : chunk -> Prop) (ws : list (list chunk)) :
  P spc -> Forall (Forall P) ws -> Forall P (joinC ws).
Proof.
  intros Hs. induction 1 as [|w ws Hw Hws IH]; [constructor|].
  destruct ws as [|w' ws]; [exact Hw|].
  change (joinC (w :: w' :: ws)) with (w ++ spc :: joinC (w' :: ws)).
  apply Forall_app. split; [exact Hw|]. constructor; assumption.
Qed.

(** Appending a separate word to a string adds one field. *)
Lemma Fields_app_word (s w : gostring) :
  w <> [] -> Forall nosp (utf8.runes w) ->
  strings.Fields (s ++ lit " " ++ w) = strings.Fields s ++ [w].
Proof.
  intros Hne Hw. unfold strings.Fields.
  change (lit " " ++ w) with (x20 :: w).
  rewrite runes_app_ascii by reflexivity.
  rewrite runes_ascii_cons by reflexivity.
  rewrite (fields_aux_app_space _ _ (b2z x20, [x20])) by reflexivity.
  rewrite map_app. f_equal.
  rewrite fields_aux_word by assumption. cbn [app].
  destruct (utf8.runes w) eqn:E.
  - destruct w; [congruence|]. rewrite runes_cons in E. discriminate.
  - rewrite <- E. cbn [map]. now rewrite flatten_runes.
Qed.

(** ** The message classifiers *)

Section Classifier.
Context {T : unicode.Tables}.

Lemma fold_count {A} (f : A -> bool) (ws : list A) (k : nat) :
  fold_left (fun n w => if f w then S n else n) ws k
  = (k + length (filter f ws))%nat.
Proof.
  revert k. induction ws as [|w ws IH]; intros k; cbn [fold_left filter].
  - cbn. lia.
  - rewrite IH. destruct (f w); cbn [length]; lia.
Qed.

Lemma filter_length_le {A} (f : A -> bool) (l : list A) :
  (length (filter f l) <= length l)%nat.
Proof.
  induction l as [|x l IH]; cbn; [lia|]. destruct (f x); cbn; lia.
Qed.

Lemma filter_length_mono {A} (f g : A -> bool) (l : list A) :
  (forall x, f x = true -> g x = true) ->
  (length (filter f l) <= length (filter g l))%nat.
Proof.
  intros H. induction l as [|x l IH]; cbn; [lia|].
  destruct (f x) eqn:E.
  - rewrite (H x E). cbn. lia.
  - destruct (g x); cbn; lia.
Qed.

Lemma isMeaningful_spec (s : gostring) :
  part_000.isMeaningful s = (2 <=? validWords_light s)%nat.
Proof.
  unfold part_000.isMeaningful, validWords_light, part_000.minWords.
  rewrite fold_count. cbn [Nat.add].
  pose proof (filter_length_le part_000.validWord (strings.Fields s)).
  destruct (Nat.ltb_spec (length (strings.Fields s)) 2); [|reflexivity].
  symmetry. apply Nat.leb_gt. lia.
Qed.

Lemma hasValidWords_spec (words : list gostring) :
  main_go.hasValidWords words
  = (2 <=? length (filter main_go.validWord words))%nat.
Proof.
  unfold main_go.hasValidWords, main_go.minWords. now rewrite fold_count.
Qed.

Lemma countChars_spec (s : gostring) :
  main_go.countChars s
  = (Z.of_nat (length (filter (fun c : chunk => unicode.IsLetter (fst c)) (utf8.runes s))),
     Z.of_nat (length (filter (fun c : chunk => negb (unicode.IsSpace (fst c))) (utf8.runes s)))).
Proof.
  unfold main_go.countChars.
  set (step := fun (acc : Z * Z) (c : chunk) => _).
  assert (G : forall cs l t,
    fold_left step cs (l, t)
    = (l + Z.of_nat (length (filter (fun c : chunk => unicode.IsLetter (fst c)) cs)),
       t + Z.of_nat (length (filter (fun c : chunk => negb (unicode.IsSpace (fst c))) cs)))).
  { induction cs as [|c cs IH]; intros l t.
    - cbn. f_equal; lia.
    - cbn [fold_left filter]. unfold step at 2. rewrite IH.
      destruct (unicode.IsLetter (fst c)), (unicode.IsSpace (fst c));
        cbn [negb length]; f_equal; lia. }
  rewrite G. reflexivity.
Qed.

(** A message of at least [minWords] words has that many characters
    that are not white space. *)
Lemma words_le_totalChars (s : gostring) :
  Z.of_nat (length (strings.Fields s)) <= snd (main_go.countChars s).
Proof.
  rewrite countChars_spec. cbn [snd]. unfold strings.Fields.
  rewrite length_map.
  pose proof (fields_aux_length [] (utf8.runes s)) as H. cbn in H. lia.
Qed.

Lemma fge_fdiv_pos (l t cn cd : Z) :
  0 < t -> fge (fdiv l t) cn cd = (cn * t <=? l * cd).
Proof.
  intros Ht. unfold fdiv, fge.
  destruct (Z.eqb_spec t 0); [lia|].
  destruct (Z.ltb_spec 0 t); [reflexivity|lia].
Qed.

Lemma isValidMessage_spec (s : gostring) :
  main_go.isValidMessage s
  = (2 <=? length (strings.Fields s))%nat
    && (6 * snd (main_go.countChars s) <=? fst (main_go.countChars s) * 10)
    && (2 <=? validWords_strong s)%nat.
Proof.
  unfold main_go.isValidMessage, validWords_strong, main_go.minWords.
  pose proof (words_le_totalChars s) as Hw.
  destruct (main_go.countChars s) as [l t]. cbn [fst snd] in *.
  destruct (Nat.ltb_spec (length (strings.Fields s)) 2) as [H|H].
  - replace (2 <=? length (strings.Fields s))%nat with false
      by (symmetry; apply Nat.leb_gt; lia). reflexivity.
  - replace (2 <=? length (strings.Fields s))%nat with true
      by (symmetry; apply Nat.leb_le; lia).
    rewrite fge_fdiv_pos by lia. rewrite hasValidWords_spec. reflexivity.
Qed.

Lemma validWord_strong_light (w : gostring) :
  main_go.validWord w = true -> part_000.validWord w = true.
Proof.
  unfold main_go.validWord, part_000.validWord.
  intros H. apply andb_prop in H. exact (proj1 H).
Qed.

Lemma validWords_light_ge_strong (s : gostring) :
  (validWords_strong s <= validWords_light s)%nat.
Proof. apply filter_length_mono, validWord_strong_light. Qed.

End Classifier.

(** ** Appending a word to a message *)

Section Append.
Context {T : unicode.Tables}.

Lemma noSpace_nosp (w : gostring) :
  noSpace w = true -> Forall nosp (utf8.runes w).
Proof.
  unfold noSpace. rewrite forallb_forall, Forall_forall.
  intros H c Hc. specialize (H c Hc). unfold nosp.
  now destruct (unicode.IsSpace (fst c)).
Qed.

Lemma runes_app_word (s w : gostring) :
  utf8.runes (s ++ lit " " ++ w) = utf8.runes s ++ spc :: utf8.runes w.
Proof.
  change (lit " " ++ w) with (x20 :: w).
  rewrite runes_app_ascii by reflexivity.
  now rewrite runes_ascii_cons by reflexivity.
Qed.

Lemma countChars_app_word (s w : gostring) :
  main_go.countChars (s ++ lit " " ++ w)
  = (fst (main_go.countChars s) + fst (main_go.countChars w),
     snd (main_go.countChars s) + snd (main_go.countChars w)).
Proof.
  rewrite !countChars_spec, runes_app_word. cbn [fst snd].
  rewrite !filter_app, !length_app. cbn [filter].
  change (unicode.IsLetter (fst spc)) with false.
  change (unicode.IsSpace (fst spc)) with true. cbn [negb].
  f_equal; lia.
Qed.

Lemma validWords_light_app_word (s w : gostring) :
  w <> [] -> noSpace w = true ->
  validWords_light (s ++ lit " " ++ w)
  = (validWords_light s + if part_000.validWord w then 1 else 0)%nat.
Proof.
  intros Hne Hw. unfold validWords_light.
  rewrite Fields_app_word by (try assumption; now apply noSpace_nosp).
  rewrite filter_app, length_app. cbn [filter].
  destruct (part_000.validWord w); reflexivity.
Qed.

Lemma validWords_strong_app_word (s w : gostring) :
  w <> [] -> noSpace w = true ->
  validWords_strong (s ++ lit " " ++ w)
  = (validWords_strong s + if main_go.validWord w then 1 else 0)%nat.
Proof.
  intros Hne Hw. unfold validWords_strong.
  rewrite Fields_app_word by (try assumption; now apply noSpace_nosp).
  rewrite filter_app, length_app. cbn [filter].
  destruct (main_go.validWord w); reflexivity.
Qed.

Lemma validWord_light_nonempty (w : gostring) :
  part_000.validWord w = true -> w <> [].
Proof.
  unfold part_000.validWord, part_000.minWordLength. intros H ->.
  discriminate.
Qed.

End Append.

Lemma filter_none {A} (f : A -> bool) (l : list A) :
  (forall x, In x l -> f x = false) -> filter f l = [].
Proof.
  induction l as [|x l IH]; intros H; [reflexivity|].
  cbn [filter]. rewrite (H x (or_introl eq_refl)).
  apply IH. intros y Hy. apply H. now right.
Qed.

(** ** The claims about the classifiers *)

(** C6 (as amended).  A candidate in which the lighter classifier counts
    exactly [minWords] valid words is accepted by it, and one with
    [minWords - 1] is rejected.  A candidate in which the stronger
    classifier counts exactly [minWords] valid words is accepted by it
    exactly when its letter ratio is at least 0.6, and one with
    [minWords - 1] is rejected. *)
Theorem C6_boundary {T : unicode.Tables} (s : gostring) :
  (validWords_light s = part_000.minWords -> part_000.isMeaningful s = true)
  /\ (validWords_light s = (part_000.minWords - 1)%nat ->
      part_000.isMeaningful s = false)
  /\ (validWords_strong s = main_go.minWords ->
      main_go.isValidMessage s
      = (6 * snd (main_go.countChars s) <=? fst (main_go.countChars s) * 10))
  /\ (validWords_strong s = (main_go.minWords - 1)%nat ->
      main_go.isValidMessage s = false).
Proof.
  unfold part_000.minWords, main_go.minWords. repeat split; intros H.
  - rewrite isMeaningful_spec, H. reflexivity.
  - rewrite isMeaningful_spec, H. reflexivity.
  - rewrite isValidMessage_spec, H.
    pose proof (filter_length_le main_go.validWord (strings.Fields s)) as Hle.
    fold (validWords_strong s) in Hle. rewrite H in Hle.
    replace (2 <=? length (strings.Fields s))%nat with true
      by (symmetry; apply Nat.leb_le; lia).
    cbn [andb Nat.leb]. now rewrite andb_true_r.
  - rewrite isValidMessage_spec, H. cbn [Nat.sub Nat.leb]. apply andb_false_r.
Qed.

Lemma C6_boundary_witness :
  part_000.isMeaningful (T := unicode.Latin1Only) (lit "abc def") = true.
Proof.
  apply (proj1 (C6_boundary (T := unicode.Latin1Only) (lit "abc def"))).
  vm_compute. reflexivity.
Defined.

(** C6 as stated fails for the stronger classifier: the candidate
    ["a11 e22"] has exactly two valid words (each of three bytes, with a
    letter that is a vowel), is what the extractor returns for itself,
    and is rejected, its letter ratio being 2/6. *)
Lemma C6_counterexample :
  regexp.FindAllString (main_go.msgPattern (T := unicode.Latin1Only))
    (lit "a11 e22") = [lit "a11 e22"]
  /\ validWords_strong (T := unicode.Latin1Only) (lit "a11 e22")
     = main_go.minWords
  /\ main_go.isValidMessage (T := unicode.Latin1Only) (lit "a11 e22") = false.
Proof. vm_compute. repeat split. Qed.

(** C7 (as amended).  Appending a further word to an accepted message,
    set off by a space: the lighter classifier still accepts when the
    word is valid for it; the stronger classifier still accepts when the
    word is valid for it and at least 0.6 of the characters of the word
    are letters. *)
Theorem C7_append_word {T : unicode.Tables} (s w : gostring) :
  noSpace w = true ->
  (part_000.isMeaningful s = true -> part_000.validWord w = true ->
   part_000.isMeaningful (s ++ lit " " ++ w) = true)
  /\ (main_go.isValidMessage s = true -> main_go.validWord w = true ->
      6 * snd (main_go.countChars w) <= fst (main_go.countChars w) * 10 ->
      main_go.isValidMessage (s ++ lit " " ++ w) = true).
Proof.
  intros Hw. split.
  - intros Hs Hv. pose proof (validWord_light_nonempty w Hv) as Hne.
    rewrite isMeaningful_spec in *.
    rewrite validWords_light_app_word by assumption.
    apply Nat.leb_le in Hs. apply Nat.leb_le. lia.
  - intros Hs Hv Hr.
    pose proof (validWord_light_nonempty w (validWord_strong_light w Hv)) as Hne.
    rewrite isValidMessage_spec in *.
    apply andb_prop in Hs. destruct Hs as [Hs H3].
    apply andb_prop in Hs. destruct Hs as [H1 H2].
    apply Nat.leb_le in H1, H3. apply Z.leb_le in H2.
    rewrite validWords_strong_app_word by assumption.
    rewrite countChars_app_word. cbn [fst snd].
    rewrite Fields_app_word by (try assumption; now apply noSpace_nosp).
    rewrite length_app. cbn [length].
    repeat (apply andb_true_intro; split).
    + apply Nat.leb_le. lia.
    + apply Z.leb_le. lia.
    + apply Nat.leb_le. lia.
Qed.

Lemma C7_append_word_witness :
  main_go.isValidMessage (T := unicode.Latin1Only)
    (lit "hello world" ++ lit " " ++ lit "again") = true.
Proof.
  apply (proj2 (C7_append_word (T := unicode.Latin1Only)
                  (lit "hello world") (lit "again") eq_refl)).
  - vm_compute. reflexivity.
  - vm_compute. reflexivity.
  - vm_compute. discriminate.
Defined.

(** C7 as stated fails for the stronger classifier: ["aaa eee"] is
    accepted, ["abc12345678"] is one valid word (eleven bytes, letters,
    a vowel), and ["aaa eee abc12345678"] is rejected, its letter ratio
    being 9/17. *)
Lemma C7_counterexample :
  main_go.isValidMessage (T := unicode.Latin1Only) (lit "aaa eee") = true
  /\ main_go.validWord (T := unicode.Latin1Only) (lit "abc12345678") = true
  /\ noSpace (lit "abc12345678") = true
  /\ main_go.isValidMessage (T := unicode.Latin1Only)
       (lit "aaa eee" ++ lit " " ++ lit "abc12345678") = false.
Proof. vm_compute. repeat split. Qed.

(** C8.  A string of white space only is rejected (by either
    classifier), and whenever [isValidMessage] gets to the division (it
    has not returned on the word count) the denominator [totalChars] is
    positive: the quotient is never NaN or infinite. *)
Theorem C8_no_zero_division {T : unicode.Tables} (s : gostring) :
  (allSpace s = true ->
   main_go.isValidMessage s = false /\ part_000.isMeaningful s = false)
  /\ ((length (strings.Fields s) <? main_go.minWords)%nat = false ->
      0 < snd (main_go.countChars s)
      /\ fdiv (fst (main_go.countChars s)) (snd (main_go.countChars s))
         = QFin (fst (main_go.countChars s)) (snd (main_go.countChars s))).
Proof.
  split.
  - intros Ha. unfold main_go.isValidMessage.
    pose proof (words_le_totalChars s) as Hw.
    assert (Ht : snd (main_go.countChars s) = 0).
    { rewrite countChars_spec. cbn [snd].
      unfold allSpace in Ha. rewrite forallb_forall in Ha.
      rewrite filter_none; [reflexivity|].
      intros c Hc. now rewrite (Ha c Hc). }
    unfold part_000.isMeaningful, part_000.minWords, main_go.minWords.
    destruct (Nat.ltb_spec (length (strings.Fields s)) 2) as [H|H];
      [split; reflexivity|lia].
  - intros Hg. apply Nat.ltb_ge in Hg. unfold main_go.minWords in Hg.
    pose proof (words_le_totalChars s) as Hw.
    assert (Hp : 0 < snd (main_go.countChars s)) by lia.
    split; [exact Hp|]. unfold fdiv.
    destruct (Z.eqb_spec (snd (main_go.countChars s)) 0); [lia|reflexivity].
Qed.

Lemma C8_no_zero_division_witness :
  main_go.isValidMessage (T := unicode.Latin1Only) (lit "   ") = false.
Proof.
  apply (proj1 (C8_no_zero_division (T := unicode.Latin1Only) (lit "   "))
           eq_refl).
Defined.

(** C10.  Whatever the stronger classifier accepts, the lighter one
    accepts. *)
Theorem C10_strong_refines_light {T : unicode.Tables} (s : gostring) :
  main_go.isValidMessage s = true -> part_000.isMeaningful s = true.
Proof.
  rewrite isValidMessage_spec, isMeaningful_spec. intros H.
  apply andb_prop in H. destruct H as [_ H]. apply Nat.leb_le in H.
  apply Nat.leb_le. pose proof (validWords_light_ge_strong s). lia.
Qed.

Lemma C10_strong_refines_light_witness :
  part_000.isMeaningful (T := unicode.Latin1Only)
    (lit "hello world this is a test") = true.
Proof.
  apply (C10_strong_refines_light (T := unicode.Latin1Only)).
  vm_compute. reflexivity.
Defined.

(** ** White-space normalisation: [strings.Join(strings.Fields(s), " ")] *)

Lemma Join_Fields_valid (cs : list chunk) :
  Forall Valid cs ->
  strings.Join (strings.Fields (flatten cs)) (lit " ")
  = flatten (joinC (strings.fields_aux [] cs)).
Proof.
  intros H. rewrite Fields_valid by assumption. apply Join_flatten.
Qed.

Lemma joinC_fields_Valid (cs : list chunk) :
  Forall Valid cs -> Forall Valid (joinC (strings.fields_aux [] cs)).
Proof.
  intros H. apply joinC_Forall; [exact Valid_spc|].
  apply fields_aux_Forall; [constructor|exact H].
Qed.

(** Normalising a normalised string changes nothing. *)
Lemma Join_Fields_idem (cs : list chunk) :
  Forall Valid cs ->
  let out := strings.Join (strings.Fields (flatten cs)) (lit " ") in
  strings.Join (strings.Fields out) (lit " ") = out.
Proof.
  intros H out. unfold out. rewrite Join_Fields_valid by assumption.
  rewrite Join_Fields_valid by (now apply joinC_fields_Valid).
  rewrite fields_aux_joinC; [reflexivity|].
  apply fields_aux_words. constructor.
Qed.

Lemma noSpaceRun_app_word (w : list chunk) (rs : list rune) :
  Forall nosp w -> noSpaceRun rs = true ->
  noSpaceRun (map fst w ++ rs) = true.
Proof.
  induction 1 as [|c w Hc _ IH]; intros Hrs; [exact Hrs|].
  cbn [map app]. specialize (IH Hrs).
  destruct (map fst w ++ rs) as [|z l] eqn:E; [reflexivity|].
  change (noSpaceRun (fst c :: z :: l))
    with (negb (unicode.IsSpace (fst c) && unicode.IsSpace z)
          && noSpaceRun (z :: l)).
  unfold nosp in Hc. rewrite Hc, IH. reflexivity.
Qed.

Lemma hd_app_word (w : list chunk) (rs : list rune) :
  word w -> unicode.IsSpace (hd 0 (map fst w ++ rs)) = false.
Proof.
  intros [Hne Hw]. destruct Hw as [|c w Hc _]; [congruence|]. exact Hc.
Qed.

Lemma last_word (w : list chunk) :
  word w -> unicode.IsSpace (last (map fst w) 0) = false.
Proof.
  intros [Hne Hw]. induction Hw as [|c w Hc Hw IH]; [congruence|].
  destruct w as [|c' w]; [exact Hc|].
  change (map fst (c :: c' :: w)) with (fst c :: map fst (c' :: w)).
  change (last (fst c :: map fst (c' :: w)) 0) with (last (map fst (c' :: w)) 0).
  apply IH. discriminate.
Qed.

Lemma last_app_nonempty {A} (l1 l2 : list A) (d : A) :
  l2 <> [] -> last (l1 ++ l2) d = last l2 d.
Proof.
  intros H. induction l1 as [|x l1 IH]; [reflexivity|].
  cbn [app]. destruct (l1 ++ l2) eqn:E.
  - destruct l1; [cbn in E; congruence|discriminate].
  - exact IH.
Qed.

Lemma joinC_shape (ws : list (list chunk)) :
  Forall word ws ->
  let rs := map fst (joinC ws) in
  noSpaceRun rs = true
  /\ unicode.IsSpace (hd 0 rs) = false
  /\ unicode.IsSpace (last rs 0) = false.
Proof.
  induction 1 as [|w ws Hw Hws IH]; [repeat split|].
  destruct ws as [|w' ws].
  - cbn [joinC]. cbv zeta. repeat split.
    + rewrite <- (app_nil_r (map fst w)).
      apply noSpaceRun_app_word; [exact (proj2 Hw)|reflexivity].
    + rewrite <- (app_nil_r (map fst w)). now apply hd_app_word.
    + now apply last_word.
  - change (joinC (w :: w' :: ws)) with (w ++ spc :: joinC (w' :: ws)).
    cbv zeta in *. rewrite map_app. cbn [map].
    destruct IH as (IH1 & IH2 & IH3).
    set (rs := map fst (joinC (w' :: ws))) in *.
    assert (Hrs : rs <> []).
    { unfold rs. inversion Hws as [|? ? [Hne' _] _]; subst.
      destruct w'; [congruence|]. destruct ws; discriminate. }
    repeat split.
    + apply noSpaceRun_app_word; [exact (proj2 Hw)|].
      destruct rs as [|r rs']; [congruence|].
      change (noSpaceRun (fst spc :: r :: rs'))
        with (negb (unicode.IsSpace (fst spc) && unicode.IsSpace r)
              && noSpaceRun (r :: rs')).
      cbn [hd] in IH2. rewrite IH2, IH1, andb_false_r. reflexivity.
    + now apply hd_app_word.
    + rewrite last_app_nonempty by discriminate.
      change (fst spc :: rs) with ([fst spc] ++ rs).
      rewrite last_app_nonempty by assumption. exact IH3.
Qed.

Lemma joinC_sep (ws : list (list chunk)) :
  Forall word ws -> Forall (fun c => nosp c \/ c = spc) (joinC ws).
Proof.
  intros H. apply joinC_Forall; [now right|].
  eapply Forall_impl; [|exact H]. intros w [_ Hw].
  eapply Forall_impl; [|exact Hw]. intros c Hc. now left.
Qed.

(** The output of the normalisation is tidy when no rune put in is a
    control character. *)
Lemma Join_Fields_tidy (cs : list chunk) :
  Forall Valid cs -> Forall plain cs ->
  tidy (strings.Join (strings.Fields (flatten cs)) (lit " ")) = true.
Proof.
  intros Hv Hp. rewrite Join_Fields_valid by assumption.
  unfold tidy. rewrite runes_valid by (now apply joinC_fields_Valid).
  assert (Hw : Forall word (strings.fields_aux [] cs))
    by (apply fields_aux_words; constructor).
  assert (Hall : Forall plain (joinC (strings.fields_aux [] cs))).
  { apply joinC_Forall; [reflexivity|].
    apply fields_aux_Forall; [constructor|exact Hp]. }
  pose proof (joinC_sep _ Hw) as Hsep.
  destruct (joinC_shape _ Hw) as (S1 & S2 & S3).
  cbv zeta in *. rewrite S1, S2, S3. cbn [negb andb].
  rewrite !andb_true_r. apply andb_true_intro. split.
  - rewrite forallb_forall. intros r Hr. apply in_map_iff in Hr.
    destruct Hr as (c & <- & Hc). rewrite Forall_forall in Hall.
    unfold plain in Hall. now rewrite (Hall c Hc).
  - rewrite forallb_forall. intros r Hr. apply in_map_iff in Hr.
    destruct Hr as (c & <- & Hc). rewrite Forall_forall in Hsep.
    destruct (Hsep c Hc) as [E| ->]; [|reflexivity].
    unfold nosp in E. now rewrite E.
Qed.

(** ** The byte decoders *)

Section Decoders.
Context {T : unicode.Tables}.

Lemma IsPrint_not_control (r : rune) :
  unicode.IsPrint r = true -> unicode.IsControl r = false.
Proof.
  unfold unicode.IsPrint, unicode.IsControl.
  destruct (unicode.latin1 r); [|reflexivity].
  unfold unicode.latin1_print, unicode.latin1_control, unicode.between.
  intros H. apply not_true_is_false. intros H'.
  rewrite ?orb_true_iff, ?andb_true_iff, ?Z.leb_le in H, H'. lia.
Qed.

Lemma good_spc : good spc.
Proof.
  split; [exact Valid_spc|]. repeat split; try reflexivity. discriminate.
Qed.

Lemma good_Valid (cs : list chunk) : Forall good cs -> Forall Valid cs.
Proof. apply Forall_impl. intros c H. exact (proj1 H). Qed.

Lemma good_plain (cs : list chunk) : Forall good cs -> Forall plain cs.
Proof.
  apply Forall_impl. intros c (_ & _ & _ & H). now apply IsPrint_not_control.
Qed.

(** With fuel for every byte, the loop of [decodeUTF8] appends to the
    builder the encodings of the printable runes it decodes. *)
Lemma decodeUTF8_loop_good (fuel : nat) (data sb : list byte) :
  (length data <= fuel)%nat ->
  exists cs, Forall good cs
             /\ main_go.decodeUTF8_loop fuel data sb = sb ++ flatten cs.
Proof.
  revert data sb. induction fuel as [|fuel IH]; intros data sb Hf.
  - destruct data; [|cbn in Hf; lia]. exists []. split; [constructor|].
    cbn. now rewrite app_nil_r.
  - destruct data as [|b t].
    { exists []. split; [constructor|]. cbn. now rewrite app_nil_r. }
    cbn [main_go.decodeUTF8_loop]. rewrite DecodeRune_decode.
    pose proof (decode_size b t) as Hs.
    destruct (utf8_spec.decode (b :: t)) as [r n] eqn:Hd. cbn [snd] in Hs.
    destruct (Z.eqb_spec r utf8.RuneError) as [Hr|Hr].
    + apply IH. cbn [skipn length] in *. lia.
    + pose proof (Valid_encode _ _ _ Hd Hr) as Hv.
      destruct (unicode.IsPrint r) eqn:Hp.
      * destruct (IH (skipn n (b :: t)) (sb ++ utf8.EncodeRune r)) as (cs & Hcs & E).
        { rewrite length_skipn. cbn [length] in *. lia. }
        exists ((r, utf8.EncodeRune r) :: cs). split.
        -- constructor; [|exact Hcs]. repeat split; try assumption; apply Hv.
        -- rewrite E, flatten_cons, <- app_assoc. reflexivity.
      * apply IH. rewrite length_skipn. cbn [length] in *. lia.
Qed.

(** On text it has written itself, the loop writes the same text. *)
Lemma decodeUTF8_loop_fix (cs : list chunk) :
  Forall good cs ->
  forall fuel sb, (length (flatten cs) <= fuel)%nat ->
  main_go.decodeUTF8_loop fuel (flatten cs) sb = sb ++ flatten cs.
Proof.
  induction 1 as [|c cs (Hv & He & Hr & Hp) _ IH]; intros fuel sb Hf.
  - destruct fuel; cbn; now rewrite app_nil_r.
  - destruct c as [r bs]. cbn [fst snd] in *. destruct Hv as [Hne Hd].
    cbn [fst snd] in *. rewrite flatten_cons in *. cbn [snd] in *.
    rewrite length_app in Hf.
    destruct bs as [|b bs]; [congruence|].
    destruct fuel as [|fuel]; [cbn in Hf; lia|].
    change ((b :: bs) ++ flatten cs) with (b :: (bs ++ flatten cs)).
    cbn [main_go.decodeUTF8_loop]. rewrite DecodeRune_decode.
    change (b :: (bs ++ flatten cs)) with ((b :: bs) ++ flatten cs).
    rewrite Hd. destruct (Z.eqb_spec r utf8.RuneError); [congruence|].
    rewrite Hp, skipn_app, Nat.sub_diag, skipn_all. cbn [skipn app].
    rewrite IH by (cbn [length] in Hf; lia).
    rewrite <- He, <- app_assoc. reflexivity.
Qed.

Lemma decodeUTF8_shape (data : list byte) :
  exists cs, Forall good cs
    /\ main_go.decodeUTF8 data
       = strings.Join (strings.Fields (flatten cs)) (lit " ").
Proof.
  destruct (decodeUTF8_loop_good (length data) data [] (le_n _)) as (cs & H & E).
  exists cs. split; [exact H|]. unfold main_go.decodeUTF8. now rewrite E.
Qed.

Lemma joinC_fields_good (cs : list chunk) :
  Forall good cs -> Forall good (joinC (strings.fields_aux [] cs)).
Proof.
  intros H. apply joinC_Forall; [exact good_spc|].
  apply fields_aux_Forall; [constructor|exact H].
Qed.

End Decoders.

Lemma flatten_asciiChunks (sb : list byte) : flatten (asciiChunks sb) = sb.
Proof.
  induction sb as [|b sb IH]; [reflexivity|].
  cbn [asciiChunks map]. rewrite flatten_cons. cbn [snd app].
  f_equal. exact IH.
Qed.

Lemma printableByte_keep (b : byte) : printableByte (keep b) = true.
Proof. unfold keep. destruct (printableByte b) eqn:E; [exact E|reflexivity]. Qed.

Lemma keep_printable (b : byte) : printableByte b = true -> keep b = b.
Proof. unfold keep. now intros ->. Qed.

Lemma printableByte_range (b : byte) :
  printableByte b = true -> 32 <= b2z b <= 126.
Proof.
  unfold printableByte, part_000.asciiPrintable, part_000.asciiMax.
  rewrite andb_true_iff, !Z.leb_le. lia.
Qed.

Lemma asciiGood_Valid (cs : list chunk) : Forall asciiGood cs -> Forall Valid cs.
Proof.
  apply Forall_impl. intros c (b & -> & Hb).
  apply Valid_ascii. apply printableByte_range in Hb. lia.
Qed.

Lemma asciiGood_plain (cs : list chunk) : Forall asciiGood cs -> Forall plain cs.
Proof.
  apply Forall_impl. intros c (b & -> & Hb). apply printableByte_range in Hb.
  unfold plain, unicode.IsControl, unicode.latin1, unicode.latin1_control,
    unicode.between, unicode.MaxLatin1. cbn [fst].
  apply not_true_is_false. intros H.
  destruct ((0 <=? b2z b) && (b2z b <=? 255)); [|discriminate].
  rewrite ?orb_true_iff, ?andb_true_iff, ?Z.leb_le in H. lia.
Qed.

Lemma asciiGood_bytes (cs : list chunk) :
  Forall asciiGood cs -> Forall (fun b => printableByte b = true) (flatten cs).
Proof.
  induction 1 as [|c cs (b & -> & Hb) _ IH]; [constructor|].
  rewrite flatten_cons. cbn [snd app]. now constructor.
Qed.

Lemma filterPrintable_shape (data : list byte) :
  exists cs, Forall asciiGood cs
    /\ part_000.filterPrintable data
       = strings.Join (strings.Fields (flatten cs)) (lit " ").
Proof.
  exists (asciiChunks (map keep data)). split.
  - unfold asciiChunks. rewrite Forall_map, Forall_map.
    apply Forall_forall. intros b _. exists (keep b). split; [reflexivity|].
    apply printableByte_keep.
  - rewrite flatten_asciiChunks. reflexivity.
Qed.

Lemma map_keep_fix (l : list byte) :
  Forall (fun b => printableByte b = true) l -> map keep l = l.
Proof.
  induction 1 as [|b l Hb _ IH]; [reflexivity|].
  cbn [map]. now rewrite keep_printable, IH.
Qed.

(** ** The claims about the decoders *)

(** C4.  Decoding the bytes of decoded text gives the same text, for the
    codepoint strategy ([decodeUTF8]) and for the byte-range strategy
    ([filterPrintable]). *)
Theorem C4_decoder_idempotent {T : unicode.Tables} (data : list byte) :
  main_go.decodeUTF8 (main_go.decodeUTF8 data) = main_go.decodeUTF8 data
  /\ part_000.filterPrintable (part_000.filterPrintable data)
     = part_000.filterPrintable data.
Proof.
  split.
  - destruct (decodeUTF8_shape data) as (cs & Hcs & E). rewrite E.
    pose proof (good_Valid cs Hcs) as Hv.
    unfold main_go.decodeUTF8 at 1.
    rewrite Join_Fields_valid at 1 2 by assumption.
    rewrite decodeUTF8_loop_fix by (try apply joinC_fields_good; auto).
    cbn [app]. rewrite <- Join_Fields_valid by assumption.
    now apply Join_Fields_idem.
  - destruct (filterPrintable_shape data) as (cs & Hcs & E). rewrite E.
    pose proof (asciiGood_Valid cs Hcs) as Hv.
    unfold part_000.filterPrintable at 1.
    change (fun b => if (part_000.asciiPrintable <=? b2z b)
                        && (b2z b <=? part_000.asciiMax) then b else x20)
      with keep.
    rewrite map_keep_fix; [now apply Join_Fields_idem|].
    rewrite Join_Fields_valid by assumption.
    apply asciiGood_bytes. apply joinC_Forall.
    + exists x20. split; reflexivity.
    + apply fields_aux_Forall; [constructor|exact Hcs].
Qed.

(** C5.  The output of either decoder holds no control character, no
    white space but single space characters, and no space at its start
    or end. *)
Theorem C5_decoder_output_tidy {T : unicode.Tables} (data : list byte) :
  tidy (main_go.decodeUTF8 data) = true
  /\ tidy (part_000.filterPrintable data) = true.
Proof.
  split.
  - destruct (decodeUTF8_shape data) as (cs & Hcs & ->).
    apply Join_Fields_tidy; [now apply good_Valid|now apply good_plain].
  - destruct (filterPrintable_shape data) as (cs & Hcs & ->).
    apply Join_Fields_tidy; [now apply asciiGood_Valid|now apply asciiGood_plain].
Qed.

(** ** The candidate extractor *)

Section Extractor.
Variable re : regexp.Regexp.
Hypothesis atLeast_pos : (1 <= regexp.atLeast re)%nat.

(** The greedy repetition takes the class runes in front and stops at
    the end of the input or at a rune outside the class. *)
Lemma greedy_spec (cs : list chunk) :
  cs = fst (regexp.greedy re cs) ++ snd (regexp.greedy re cs)
  /\ Forall (inClass re) (fst (regexp.greedy re cs))
  /\ starts_out re (snd (regexp.greedy re cs)).
Proof.
  induction cs as [|c cs (IH1 & IH2 & IH3)]; [repeat split; constructor|].
  cbn [regexp.greedy]. destruct (regexp.class re (fst c)) eqn:E.
  - destruct (regexp.greedy re cs) as [m rest]. cbn [fst snd] in *.
    repeat split; [now rewrite IH1 at 1|now constructor|exact IH3].
  - cbn [fst snd]. repeat split; [constructor|exact E].
Qed.

Lemma greedy_app (m rest : list chunk) :
  Forall (inClass re) m -> starts_out re rest ->
  regexp.greedy re (m ++ rest) = (m, rest).
Proof.
  intros Hm Hr. induction Hm as [|c m Hc _ IH].
  - destruct rest as [|c rest]; [reflexivity|].
    cbn in *. now rewrite Hr.
  - cbn [app regexp.greedy]. unfold inClass in Hc. now rewrite Hc, IH.
Qed.

Lemma find_all_fuel (f1 f2 : nat) (cs : list chunk) :
  (length cs <= f1)%nat -> (length cs <= f2)%nat ->
  regexp.find_all re f1 cs = regexp.find_all re f2 cs.
Proof.
  revert f2 cs. induction f1 as [|f1 IH]; intros f2 cs H1 H2.
  - destruct cs; [|cbn in H1; lia]. destruct f2; reflexivity.
  - destruct f2 as [|f2]; [destruct cs; [reflexivity|cbn in H2; lia]|].
    destruct cs as [|c cs]; [reflexivity|].
    cbn [regexp.find_all].
    destruct (greedy_spec (c :: cs)) as (E & _ & _).
    destruct (regexp.greedy re (c :: cs)) as [m rest]. cbn [fst snd] in E.
    assert (Hlen : length (c :: cs) = (length m + length rest)%nat)
      by (rewrite E at 1; apply length_app).
    cbn [length] in *.
    destruct (Nat.leb_spec (regexp.atLeast re) (length m)).
    + f_equal. apply IH; lia.
    + apply IH; lia.
Qed.

(** The search, one step unfolded. *)
Lemma findAll_cons (c : chunk) (cs : list chunk) :
  findAll re (c :: cs) =
  if (regexp.atLeast re <=? length (fst (regexp.greedy re (c :: cs))))%nat
  then fst (regexp.greedy re (c :: cs))
       :: findAll re (snd (regexp.greedy re (c :: cs)))
  else findAll re cs.
Proof.
  unfold findAll at 1. cbn [length regexp.find_all].
  destruct (greedy_spec (c :: cs)) as (E & _ & _).
  destruct (regexp.greedy re (c :: cs)) as [m rest]. cbn [fst snd] in *.
  assert (Hlen : length (c :: cs) = (length m + length rest)%nat)
    by (rewrite E at 1; apply length_app).
  cbn [length] in Hlen.
  destruct (Nat.leb_spec (regexp.atLeast re) (length m)).
  - f_equal. apply find_all_fuel; lia.
  - reflexivity.
Qed.

(** A run that is too short is passed over rune by rune, and so is the
    rune that ends it. *)
Lemma findAll_short (m rest : list chunk) :
  Forall (inClass re) m -> (length m < regexp.atLeast re)%nat ->
  starts_out re rest ->
  findAll re (m ++ rest) = findAll re (tl rest).
Proof.
  intros Hm. induction Hm as [|c m Hc Hm IH]; intros Hlen Hr.
  - destruct rest as [|c rest]; [reflexivity|].
    cbn [app tl]. rewrite findAll_cons.
    change (c :: rest) with ([] ++ c :: rest).
    rewrite greedy_app by (try constructor; exact Hr).
    cbn [fst length]. destruct (Nat.leb_spec (regexp.atLeast re) 0); [lia|reflexivity].
  - cbn [app]. rewrite findAll_cons.
    change (c :: m ++ rest) with ((c :: m) ++ rest).
    rewrite greedy_app by (try constructor; assumption).
    cbn [fst]. destruct (Nat.leb_spec (regexp.atLeast re) (length (c :: m))); [lia|].
    apply IH; [cbn [length] in Hlen; lia|exact Hr].
Qed.

Lemma Extraction_block (m : list chunk) (c : chunk) (rest : list chunk)
    (ms : list (list chunk)) :
  Forall (inClass re) m -> (length m < regexp.atLeast re)%nat ->
  regexp.class re (fst c) = false ->
  Extraction re rest ms -> Extraction re (m ++ c :: rest) ms.
Proof.
  intros Hm Hlen Hc H. destruct H as [g t Hg Ht Hl|g m' rest' ms Hg Hm' Hl Hr H].
  - change (m ++ c :: g ++ t) with (m ++ (c :: g) ++ t).
    rewrite app_assoc. apply Ex_last; try assumption.
    now apply Gap_block.
  - change (m ++ c :: g ++ m' ++ rest') with (m ++ (c :: g) ++ m' ++ rest').
    rewrite app_assoc. apply Ex_match; try assumption.
    now apply Gap_block.
Qed.

Lemma findAll_Extraction (cs : list chunk) : Extraction re cs (findAll re cs).
Proof.
  remember (length cs) as k eqn:Ek. revert cs Ek.
  induction k as [k IH] using lt_wf_ind. intros cs Ek.
  destruct cs as [|c cs].
  { apply (Ex_last re [] []); [exact (Gap_nil re)|constructor|cbn; lia]. }
  destruct (greedy_spec (c :: cs)) as (E & Hm & Hr).
  pose proof (findAll_cons c cs) as Hstep.
  pose proof (findAll_short (fst (regexp.greedy re (c :: cs)))
                (snd (regexp.greedy re (c :: cs))) Hm) as Hshort.
  rewrite <- E in Hshort.
  destruct (regexp.greedy re (c :: cs)) as [m rest]. cbn [fst snd] in *.
  assert (Hlen : length (c :: cs) = (length m + length rest)%nat)
    by (rewrite E at 1; apply length_app).
  destruct (Nat.leb_spec (regexp.atLeast re) (length m)) as [Hge|Hlt].
  - rewrite Hstep, E. apply (Ex_match re [] m rest); try assumption;
      [exact (Gap_nil re)|].
    apply (IH (length rest)); [|reflexivity].
    destruct m; [cbn in Hge; lia|]. subst k. rewrite Hlen. cbn [length]. lia.
  - rewrite (Hshort Hlt Hr), E. destruct rest as [|c' rest].
    + rewrite app_nil_r. apply (Ex_last re [] m); [exact (Gap_nil re)|assumption..].
    + cbn [tl]. apply Extraction_block; try assumption.
      apply (IH (length rest)); [|reflexivity].
      subst k. rewrite Hlen. cbn [length]. lia.
Qed.

End Extractor.

(** A gap is empty or ends with a rune outside the class: the match
    behind it cannot be extended to the left. *)
Lemma Gap_last (re : regexp.Regexp) (g : list chunk) :
  Gap re g ->
  g = [] \/ exists g' c, g = g' ++ [c] /\ regexp.class re (fst c) = false.
Proof.
  induction 1 as [|m c g Hm Hl Hc Hg IH]; [now left|]. right.
  destruct IH as [->|(g' & c' & -> & Hc')].
  - exists m, c. split; [reflexivity|exact Hc].
  - exists (m ++ c :: g'), c'. split; [|exact Hc'].
    now rewrite <- app_assoc.
Qed.

(** From an extraction: the matches lie in the string one behind the
    other, with gaps in between. *)
Lemma Extraction_weave (re : regexp.Regexp) (cs : list chunk) (ms : list (list chunk)) :
  Extraction re cs ms ->
  exists gaps, length gaps = S (length ms) /\ cs = weave gaps ms.
Proof.
  induction 1 as [g t _ _ _|g m rest ms _ _ _ _ _ (gaps & Hl & ->)].
  - exists [g ++ t]. split; reflexivity.
  - exists (g :: gaps). split; [cbn; lia|].
    destruct gaps; [discriminate|]. reflexivity.
Qed.

Lemma Extraction_matches (re : regexp.Regexp) (cs : list chunk) (ms : list (list chunk)) :
  Extraction re cs ms ->
  Forall (fun m => Forall (inClass re) m
                   /\ (regexp.atLeast re <= length m)%nat) ms.
Proof. induction 1; constructor; auto. Qed.

Lemma Extraction_Forall (re : regexp.Regexp) (P : chunk -> Prop)
    (cs : list chunk) (ms : list (list chunk)) :
  Extraction re cs ms -> Forall P cs -> Forall (Forall P) ms.
Proof.
  induction 1 as [|g m rest ms _ _ _ _ _ IH]; intros HP; [constructor|].
  apply Forall_app in HP. destruct HP as [_ HP].
  apply Forall_app in HP. destruct HP as [Hm Hrest].
  constructor; [exact Hm|now apply IH].
Qed.

Lemma flatten_weave (gaps ms : list (list chunk)) :
  flatten (weave gaps ms) = weave (map flatten gaps) (map flatten ms).
Proof.
  revert ms. induction gaps as [|g gaps IH]; intros ms; [reflexivity|].
  destruct ms as [|m ms]; [reflexivity|].
  cbn [weave map]. now rewrite !flatten_app, IH.
Qed.

Lemma flatten_length (m : list chunk) :
  Forall (fun c : chunk => snd c <> []) m -> (length m <= length (flatten m))%nat.
Proof.
  induction 1 as [|c m Hc _ IH]; [reflexivity|].
  rewrite flatten_cons, length_app. cbn [length].
  destruct (snd c); [congruence|]. cbn [length]. lia.
Qed.

Lemma FindAllString_extracts (re : regexp.Regexp) (s : gostring) :
  (1 <= regexp.atLeast re)%nat ->
  extracts re s (regexp.FindAllString re s).
Proof.
  intros Hn. pose proof (findAll_Extraction re Hn (utf8.runes s)) as HE.
  unfold regexp.FindAllString. fold (findAll re (utf8.runes s)).
  set (ms := findAll re (utf8.runes s)) in *.
  split; [|split].
  - exists ms. split; [reflexivity|exact HE].
  - destruct (Extraction_weave re _ _ HE) as (gaps & Hl & Hw).
    exists (map flatten gaps). split; [now rewrite !length_map|].
    rewrite <- flatten_weave, <- Hw. symmetry. apply flatten_runes.
  - pose proof (Extraction_matches re _ _ HE) as Hm.
    pose proof (Extraction_Forall re _ _ _ HE (runes_nonempty s)) as Hne.
    rewrite Forall_map. rewrite Forall_forall in *. intros m Hin.
    pose proof (flatten_length m (Hne m Hin)). destruct (Hm m Hin). lia.
Qed.

(** ** The claim about the candidate extractor *)

(** C9.  For every string, the candidates of either program are the
    maximal runs of at least [minMsgLength] runes of the pattern's
    class, in order: substrings of the string that lie one behind the
    other (no position belongs to two of them), each of at least
    [minMsgLength] bytes, each followed and preceded by a rune outside
    the class or by an end of the string. *)
Theorem C9_extractor {T : unicode.Tables} (s : gostring) :
  extracts main_go.msgPattern s (regexp.FindAllString main_go.msgPattern s)
  /\ extracts part_000.msgPattern s
       (regexp.FindAllString part_000.msgPattern s).
Proof.
  split; apply FindAllString_extracts; cbn;
    unfold main_go.minMsgLength, part_000.minMsgLength; lia.
Qed.

(** ** The signature filter *)

Lemma bytes_eqb_refl (a : gostring) : bytes_eqb a a = true.
Proof.
  induction a as [|x a IH]; [reflexivity|].
  cbn [bytes_eqb]. now rewrite (Byte.byte_dec_lb (eq_refl x)), IH.
Qed.

Lemma map_lookup_In (m : list (gostring * gostring)) (key : gostring) :
  In key (map fst m) -> main_go.map_lookup m key <> None.
Proof.
  unfold main_go.map_lookup. induction m as [|kv m IH]; [intros []|].
  cbn [map In find]. intros [<-|H].
  - rewrite bytes_eqb_refl. discriminate.
  - destruct (bytes_eqb (fst kv) key); [discriminate|now apply IH].
Qed.

Lemma isContractCall_matches (data : list byte) :
  matchesSignature data -> main_go.isContractCall data = true.
Proof.
  intros [Hlen Hin]. unfold main_go.isContractCall.
  destruct (Nat.ltb_spec (length data) 4); [lia|].
  pose proof (map_lookup_In _ _ Hin) as H'.
  destruct (main_go.map_lookup main_go.functionSignatures
              (hex.EncodeToString (firstn 4 data))); [reflexivity|congruence].
Qed.

(** C1 (as amended).  In [main.go], a payload whose first four bytes,
    hex-encoded, are a key of the Signature Table gives no candidates
    and no accepted messages, whatever bytes follow and whatever the
    pattern. *)
Theorem C1_signature_filter {T : unicode.Tables} (tx : Transaction)
    (pattern : regexp.Regexp) :
  matchesSignature (Data tx) ->
  main_go.analyzeTransaction_matches (Data tx) pattern = []
  /\ main_go.analyzeTransaction tx pattern = [].
Proof.
  intros H. apply isContractCall_matches in H.
  unfold main_go.analyzeTransaction_matches, main_go.analyzeTransaction.
  rewrite H, orb_true_r. split; reflexivity.
Qed.

Lemma C1_signature_filter_witness :
  main_go.analyzeTransaction (T := unicode.Latin1Only)
    {| Hash := lit "0x01"; To := None;
       Data := [xa9; x05; x9c; xbb] ++ lit "hello world this is a test" |}
    (main_go.msgPattern (T := unicode.Latin1Only)) = [].
Proof.
  apply (C1_signature_filter (T := unicode.Latin1Only)).
  split; [cbn; lia|]. cbn. left. reflexivity.
Defined.

(** C1 as stated fails for [part_000], which has no signature table:
    the payload [a9 05 9c bb] followed by ["hello world this is a test"]
    matches the ERC20 transfer signature, and the pipeline of
    [part_000] finds the candidate and prints it as a message. *)
Lemma C1_counterexample :
  let data := [xa9; x05; x9c; xbb] ++ lit "hello world this is a test" in
  let tx := {| Hash := lit "0x01"; To := Some (lit "0x02"); Data := data |} in
  matchesSignature data
  /\ part_000.analyzeTransaction_matches data part_000.msgPattern
     = [lit "hello world this is a test"]
  /\ part_000.analyzeTransaction (T := unicode.Latin1Only) tx 7
       part_000.msgPattern
     = ([EvPrint (LBlockTx 7 (lit "0x01")); EvPrint (LFrom (lit "0x02"));
         EvPrint LPossible;
         EvPrint (LMsg (lit "hello world this is a test"))], Some tt).
Proof.
  cbv zeta. split; [|split].
  - split; [cbn; lia|]. cbn. left. reflexivity.
  - vm_compute. reflexivity.
  - vm_compute. reflexivity.
Qed.

(** ** Computations that emit events *)

Lemma bind_assoc {A B C} (m : IO A) (f : A -> IO B) (g : B -> IO C) :
  bind (bind m f) g = bind m (fun a => bind (f a) g).
Proof.
  destruct m as [es [a|]]; cbn; [|reflexivity].
  destruct (f a) as [es' [b|]]; cbn; [|reflexivity].
  destruct (g b) as [es'' r]. now rewrite app_assoc.
Qed.

Lemma bind_events {A B} (m : IO A) (k : A -> IO B) :
  fst (bind m k)
  = fst m ++ match snd m with Some a => fst (k a) | None => [] end.
Proof.
  destruct m as [es [a|]]; cbn; [|now rewrite app_nil_r].
  now destruct (k a).
Qed.

Lemma bind_result {A B} (m : IO A) (k : A -> IO B) :
  snd (bind m k) = match snd m with Some a => snd (k a) | None => None end.
Proof.
  destruct m as [es [a|]]; cbn; [|reflexivity]. now destruct (k a).
Qed.

Lemma forEach_emit_total {A} (xs : list A) (f : A -> event) :
  forEach xs (fun x => emit (f x)) = (map f xs, Some tt).
Proof.
  induction xs as [|x xs IH]; [reflexivity|].
  cbn [forEach map]. rewrite IH. reflexivity.
Qed.

Lemma runBlocks_app (body : Z -> IO unit) (l1 l2 : list Z) :
  runBlocks body (l1 ++ l2) = runBlocks body l1 ;;; runBlocks body l2.
Proof.
  induction l1 as [|b l1 IH]; cbn [app runBlocks].
  - destruct (runBlocks body l2) as [es [[]|]]; reflexivity.
  - rewrite IH, bind_assoc. reflexivity.
Qed.

(** ** The loops of [main] *)

Lemma wrap64_id (z : Z) : - 2^63 <= z < 2^63 -> wrap64 z = z.
Proof.
  intros H. unfold wrap64. rewrite Z.mod_small; lia.
Qed.

Section Scan.
Context {T : unicode.Tables}.
Variable client : Client.

Lemma main_scan_loop (k : nat) (fuel : nat) (blockNum startBlock : Z) :
  (k < fuel)%nat -> - 2^63 < startBlock -> blockNum < 2^63 ->
  blockNum = startBlock + Z.of_nat k - 1 ->
  main_go.scan_loop fuel client blockNum startBlock
  = Some (runBlocks (main_go_iteration client) (countDown k blockNum)).
Proof.
  revert fuel blockNum. induction k as [|k IH]; intros fuel blockNum Hf Hs Hb E.
  - destruct fuel as [|fuel]; [lia|]. cbn [main_go.scan_loop countDown runBlocks].
    destruct (Z.leb_spec startBlock blockNum); [lia|reflexivity].
  - destruct fuel as [|fuel]; [lia|]. cbn [main_go.scan_loop countDown runBlocks].
    destruct (Z.leb_spec startBlock blockNum); [|lia].
    rewrite wrap64_id by lia. rewrite (IH fuel (blockNum - 1)) by lia.
    unfold main_go_iteration. now rewrite bind_assoc.
Qed.

Lemma part_scan_loop (k : nat) (fuel : nat) (blockNum endBlock : Z) :
  (k < fuel)%nat -> - 2^63 <= blockNum -> endBlock < 2^63 - 1 ->
  endBlock = blockNum + Z.of_nat k - 1 ->
  part_000.scan_loop fuel client blockNum endBlock
  = Some (runBlocks (part_000_iteration client) (countUp k blockNum)).
Proof.
  revert fuel blockNum. induction k as [|k IH]; intros fuel blockNum Hf Hs Hb E.
  - destruct fuel as [|fuel]; [lia|]. cbn [part_000.scan_loop countUp runBlocks].
    destruct (Z.leb_spec blockNum endBlock); [lia|reflexivity].
  - destruct fuel as [|fuel]; [lia|]. cbn [part_000.scan_loop countUp runBlocks].
    destruct (Z.leb_spec blockNum endBlock); [|lia].
    rewrite wrap64_id by lia. rewrite (IH fuel (blockNum + 1)) by lia.
    unfold part_000_iteration. now rewrite bind_assoc.
Qed.

(** With fuel for its 101 iterations, each scan is the sequence of its
    iterations over the configured range. *)
Lemma main_scan_blocks (fuel : nat) (head : Z) :
  (101 < fuel)%nat -> headInRange head ->
  main_go.scan fuel client head
  = Some (runBlocks (main_go_iteration client) (countDown 101 head)).
Proof.
  intros Hf Hh. unfold headInRange in Hh. unfold main_go.scan, main_go.scanDepth.
  rewrite wrap64_id by lia. apply main_scan_loop; lia.
Qed.

Lemma part_scan_blocks (fuel : nat) (head : Z) :
  (101 < fuel)%nat -> headInRange head ->
  part_000.scan fuel client head
  = Some (runBlocks (part_000_iteration client) (countUp 101 (head - 100))).
Proof.
  intros Hf Hh. unfold headInRange in Hh. unfold part_000.scan, part_000.scanDepth.
  rewrite wrap64_id by lia. apply part_scan_loop; lia.
Qed.

End Scan.

(** ** The events of one iteration *)

Lemma isPrint_quiet (n : Z) (es : list event) :
  Forall isPrint es -> Forall (quiet n) es.
Proof. apply Forall_impl. intros e [l ->]. split; reflexivity. Qed.

Lemma bind_Forall {A B} (P : event -> Prop) (m : IO A) (k : A -> IO B) :
  Forall P (fst m) -> (forall a, Forall P (fst (k a))) ->
  Forall P (fst (bind m k)).
Proof.
  intros Hm Hk. rewrite bind_events. apply Forall_app. split; [exact Hm|].
  destruct (snd m); [apply Hk|constructor].
Qed.

Lemma forEach_Forall {A} (P : event -> Prop) (xs : list A) (body : A -> IO unit) :
  (forall x, Forall P (fst (body x))) -> Forall P (fst (forEach xs body)).
Proof.
  intros H. induction xs as [|x xs IH]; [constructor|].
  cbn [forEach]. apply bind_Forall; [apply H|intros _; exact IH].
Qed.

Lemma quiet_counts (n : Z) (es : list event) :
  Forall (quiet n) es -> fetches n es = 0%nat /\ logs n es = 0%nat.
Proof.
  unfold fetches, logs. induction 1 as [|e es [H1 H2] _ [IH1 IH2]]; [split; reflexivity|].
  cbn [filter]. now rewrite H1, H2.
Qed.

Section Iterations.
Context {T : unicode.Tables}.
Variable client : Client.

(** A block whose fetch fails: one fetch, one log line, and back to the
    loop; true of either program and of any pattern. *)
Lemma main_processBlock_error (n : Z) (err : gostring) (pattern : regexp.Regexp) :
  BlockByNumber client n = inr err ->
  main_go.processBlock client n pattern = ([EvFetch n; EvLog n err], Some tt).
Proof. intros H. unfold main_go.processBlock. now rewrite H. Qed.

Lemma part_processBlock_error (n : Z) (err : gostring) (pattern : regexp.Regexp) :
  BlockByNumber client n = inr err ->
  part_000.processBlock client n pattern = ([EvFetch n; EvLog n err], Some tt).
Proof. intros H. unfold part_000.processBlock. now rewrite H. Qed.

(** [processBlock] of [main.go] always returns, and apart from its
    fetch emits a log line about its own block or output lines. *)
Lemma main_processBlock_shape (b : Z) (pattern : regexp.Regexp) :
  exists es, main_go.processBlock client b pattern = (EvFetch b :: es, Some tt)
             /\ forall n, n <> b -> Forall (quiet n) es.
Proof.
  unfold main_go.processBlock.
  destruct (BlockByNumber client b) as [txs|err].
  - set (outs := flat_map _ txs).
    destruct (0 <? length outs)%nat.
    + rewrite forEach_emit_total. eexists. split; [reflexivity|].
      intros n _. apply isPrint_quiet. constructor; [now eexists|].
      rewrite Forall_map. apply Forall_forall. intros l _. now eexists.
    + eexists. split; [reflexivity|]. intros; constructor.
  - eexists. split; [reflexivity|]. intros n Hn.
    constructor; [|constructor]. split; [reflexivity|].
    cbn. apply Z.eqb_neq. congruence.
Qed.

Lemma printResults_loop_prints (tx : Transaction) (blockNum : Z)
    (messages : list gostring) (shown : bool) :
  Forall isPrint (fst (part_000.printResults_loop tx blockNum messages shown)).
Proof.
  revert shown. induction messages as [|msg rest IH]; intros shown; [constructor|].
  cbn [part_000.printResults_loop].
  destruct (part_000.isMeaningful msg); [|apply IH].
  apply bind_Forall.
  - destruct shown; cbn [negb]; [constructor|].
    unfold part_000.To_Hex. destruct (To tx); cbn;
      repeat constructor; now eexists.
  - intros _. apply bind_Forall; [repeat constructor; now eexists|].
    intros _. apply IH.
Qed.

Lemma part_analyzeTransaction_prints (tx : Transaction) (blockNum : Z)
    (pattern : regexp.Regexp) :
  Forall isPrint (fst (part_000.analyzeTransaction tx blockNum pattern)).
Proof.
  unfold part_000.analyzeTransaction, part_000.printResults.
  destruct (length (Data tx) =? 0)%nat; [constructor|].
  destruct (0 <? length _)%nat; [apply printResults_loop_prints|constructor].
Qed.

Lemma part_processBlock_shape (b : Z) (pattern : regexp.Regexp) :
  exists es r, part_000.processBlock client b pattern = (EvFetch b :: es, r)
               /\ forall n, n <> b -> Forall (quiet n) es.
Proof.
  unfold part_000.processBlock.
  destruct (BlockByNumber client b) as [txs|err].
  - pose proof (forEach_Forall isPrint txs
      (fun tx => part_000.analyzeTransaction tx b pattern)
      (fun tx => part_analyzeTransaction_prints tx b pattern)) as H.
    destruct (forEach txs _) as [es r]. cbn [fst] in H.
    exists es, r. split; [reflexivity|]. intros n _. now apply isPrint_quiet.
  - eexists _, _. split; [reflexivity|]. intros n Hn.
    constructor; [|constructor]. split; [reflexivity|].
    cbn. apply Z.eqb_neq. congruence.
Qed.

Lemma main_iteration_shape (b : Z) :
  exists es, main_go_iteration client b = (EvFetch b :: es, Some tt)
             /\ forall n, n <> b -> Forall (quiet n) (EvFetch b :: es).
Proof.
  unfold main_go_iteration.
  destruct (main_processBlock_shape b main_go.msgPattern) as (es & -> & H).
  exists (es ++ [EvSleep 250]). split; [reflexivity|].
  intros n Hn. constructor.
  - split; [|reflexivity]. cbn. apply Z.eqb_neq. congruence.
  - apply Forall_app. split; [now apply H|]. repeat constructor.
Qed.

Lemma part_iteration_shape (b : Z) :
  exists es r,
    part_000_iteration client b = (EvSleep 100 :: EvFetch b :: es, r)
    /\ forall n, n <> b -> Forall (quiet n) (EvSleep 100 :: EvFetch b :: es).
Proof.
  unfold part_000_iteration.
  destruct (part_processBlock_shape b part_000.msgPattern) as (es & r & -> & H).
  exists es, r. split; [reflexivity|].
  intros n Hn. constructor; [split; reflexivity|]. constructor.
  - split; [|reflexivity]. cbn. apply Z.eqb_neq. congruence.
  - now apply H.
Qed.

Lemma main_iteration_error (n : Z) (err : gostring) :
  BlockByNumber client n = inr err ->
  main_go_iteration client n
  = ([EvFetch n; EvLog n err; EvSleep 250], Some tt).
Proof.
  intros H. unfold main_go_iteration.
  now rewrite (main_processBlock_error n err _ H).
Qed.

Lemma part_iteration_error (n : Z) (err : gostring) :
  BlockByNumber client n = inr err ->
  part_000_iteration client n
  = ([EvSleep 100; EvFetch n; EvLog n err], Some tt).
Proof.
  intros H. unfold part_000_iteration.
  now rewrite (part_processBlock_error n err _ H).
Qed.

(** Blocks other than [n] leave no fetch of [n] and no log about [n]. *)
Lemma runBlocks_quiet (body : Z -> IO unit) (n : Z) (bs : list Z) :
  (forall b, b <> n -> Forall (quiet n) (fst (body b))) ->
  ~ In n bs -> Forall (quiet n) (fst (runBlocks body bs)).
Proof.
  intros Hb. induction bs as [|b bs IH]; intros Hn; [constructor|].
  cbn [runBlocks]. apply bind_Forall.
  - apply Hb. intros ->. apply Hn. now left.
  - intros _. apply IH. intros H. apply Hn. now right.
Qed.

Lemma main_runBlocks_total (bs : list Z) :
  snd (runBlocks (main_go_iteration client) bs) = Some tt.
Proof.
  induction bs as [|b bs IH]; [reflexivity|].
  cbn [runBlocks]. rewrite bind_result.
  destruct (main_iteration_shape b) as (es & -> & _). exact IH.
Qed.

End Iterations.

(** ** The configured range *)

Lemma countDown_In (k : nat) (from n : Z) :
  In n (countDown k from) <-> from - Z.of_nat k < n <= from.
Proof.
  revert from. induction k as [|k IH]; intros from; cbn [countDown In].
  - lia.
  - rewrite IH. lia.
Qed.

Lemma countUp_In (k : nat) (from n : Z) :
  In n (countUp k from) <-> from <= n < from + Z.of_nat k.
Proof.
  revert from. induction k as [|k IH]; intros from; cbn [countUp In].
  - lia.
  - rewrite IH. lia.
Qed.

Lemma countDown_split (i j : nat) (from : Z) :
  countDown (i + j) from = countDown i from ++ countDown j (from - Z.of_nat i).
Proof.
  revert from. induction i as [|i IH]; intros from.
  - cbn. f_equal. lia.
  - cbn [Nat.add countDown app]. rewrite IH. do 3 f_equal. lia.
Qed.

Lemma countUp_split (i j : nat) (from : Z) :
  countUp (i + j) from = countUp i from ++ countUp j (from + Z.of_nat i).
Proof.
  revert from. induction i as [|i IH]; intros from.
  - cbn. f_equal. lia.
  - cbn [Nat.add countUp app]. rewrite IH. do 3 f_equal. lia.
Qed.

(** ** The claims about the scan *)

Section ScanClaims.
Context {T : unicode.Tables}.
Variable client : Client.

Lemma counts_app (n : Z) (a b : list event) :
  fetches n (a ++ b) = (fetches n a + fetches n b)%nat
  /\ logs n (a ++ b) = (logs n a + logs n b)%nat.
Proof. unfold fetches, logs. now rewrite !filter_app, !length_app. Qed.

Lemma fetches_In (n : Z) (tr : list event) :
  In (EvFetch n) tr -> (1 <= fetches n tr)%nat.
Proof.
  unfold fetches. induction tr as [|e tr IH]; intros H; [destruct H|].
  cbn [filter]. destruct H as [->|H].
  - cbn [isFetchOf]. rewrite Z.eqb_refl. cbn. lia.
  - specialize (IH H). destruct (isFetchOf n e); cbn [length]; lia.
Qed.

(** The scan of [main.go] around a block [n] whose fetch fails. *)
Lemma main_scan_around (n : Z) (err : gostring) (l1 l2 : list Z) :
  BlockByNumber client n = inr err -> ~ In n l1 -> ~ In n l2 ->
  exists tr1 tr2,
    runBlocks (main_go_iteration client) (l1 ++ n :: l2)
    = (tr1 ++ [EvFetch n; EvLog n err; EvSleep 250] ++ tr2, Some tt)
    /\ Forall (quiet n) tr1 /\ Forall (quiet n) tr2
    /\ tr2 = fst (runBlocks (main_go_iteration client) l2).
Proof.
  intros He H1 H2.
  pose proof (main_runBlocks_total client l1) as R1.
  pose proof (main_runBlocks_total client l2) as R2.
  assert (Q : forall l, ~ In n l ->
            Forall (quiet n) (fst (runBlocks (main_go_iteration client) l))).
  { intros l Hl. apply runBlocks_quiet; [|exact Hl]. intros b Hb.
    destruct (main_iteration_shape client b) as (es & -> & H). apply H. congruence. }
  pose proof (Q l1 H1) as Q1. pose proof (Q l2 H2) as Q2.
  rewrite runBlocks_app. cbn [runBlocks].
  rewrite (main_iteration_error client n err He).
  destruct (runBlocks (main_go_iteration client) l1) as [tr1 r1].
  destruct (runBlocks (main_go_iteration client) l2) as [tr2 r2].
  cbn [fst snd] in *. subst r1 r2.
  exists tr1, tr2. cbn. repeat split; assumption.
Qed.

(** The scan of [part_000] around a block [n] whose fetch fails: unless
    an earlier block has ended the program, the same. *)
Lemma part_scan_around (n : Z) (err : gostring) (l1 l2 : list Z) :
  BlockByNumber client n = inr err -> ~ In n l1 -> ~ In n l2 ->
  exists tr1 tr2 r,
    Forall (quiet n) tr1 /\ Forall (quiet n) tr2
    /\ tr2 = fst (runBlocks (part_000_iteration client) l2)
    /\ (runBlocks (part_000_iteration client) (l1 ++ n :: l2) = (tr1, None)
        \/ runBlocks (part_000_iteration client) (l1 ++ n :: l2)
           = (tr1 ++ [EvSleep 100; EvFetch n; EvLog n err] ++ tr2, r)).
Proof.
  intros He H1 H2.
  assert (Q : forall l, ~ In n l ->
            Forall (quiet n) (fst (runBlocks (part_000_iteration client) l))).
  { intros l Hl. apply runBlocks_quiet; [|exact Hl]. intros b Hb.
    destruct (part_iteration_shape client b) as (es & r & -> & H).
    apply H. congruence. }
  pose proof (Q l1 H1) as Q1. pose proof (Q l2 H2) as Q2.
  rewrite runBlocks_app. cbn [runBlocks].
  rewrite (part_iteration_error client n err He).
  destruct (runBlocks (part_000_iteration client) l1) as [tr1 r1].
  destruct (runBlocks (part_000_iteration client) l2) as [tr2 r2].
  cbn [fst snd] in *.
  exists tr1, tr2, r2. repeat split; try assumption.
  destruct r1 as [[]|]; [right|left]; reflexivity.
Qed.

End ScanClaims.

(** C2.  Let the fetch of a block [n] of the configured range fail.
    [processBlock] then fetches once, logs once and returns to the loop,
    in either program.  The scan of [main.go] runs to its end; its trace
    holds one fetch of [n] and one log line about [n], and, unless [n]
    is the last block, goes on to the fetch of [n - 1] after the pause.
    The scan of [part_000], whenever it gets to fetch [n], likewise
    holds one fetch of [n] and one log line about it and, unless [n] is
    the last block, goes on to the fetch of [n + 1] after the pause. *)
Theorem C2_fetch_failure {T : unicode.Tables} (client : Client)
    (head n : Z) (err : gostring) (fuel : nat) :
  headInRange head -> head - 100 <= n <= head -> (101 < fuel)%nat ->
  BlockByNumber client n = inr err ->
  (forall pattern,
     main_go.processBlock client n pattern = ([EvFetch n; EvLog n err], Some tt)
     /\ part_000.processBlock client n pattern
        = ([EvFetch n; EvLog n err], Some tt))
  /\ (exists tr,
        main_go.scan fuel client head = Some (tr, Some tt)
        /\ fetches n tr = 1%nat /\ logs n tr = 1%nat
        /\ (n <> head - 100 ->
            exists pre post,
              tr = pre ++ [EvFetch n; EvLog n err; EvSleep 250;
                           EvFetch (n - 1)] ++ post))
  /\ (exists tr r,
        part_000.scan fuel client head = Some (tr, r)
        /\ (In (EvFetch n) tr ->
            fetches n tr = 1%nat /\ logs n tr = 1%nat
            /\ (n <> head ->
                exists pre post,
                  tr = pre ++ [EvFetch n; EvLog n err; EvSleep 100;
                               EvFetch (n + 1)] ++ post))).
Proof.
  intros Hh Hn Hf He. split; [|split].
  - intros pattern. split.
    + now apply main_processBlock_error.
    + now apply part_processBlock_error.
  - rewrite (main_scan_blocks client fuel head Hf Hh).
    set (i := Z.to_nat (head - n)). set (j := Z.to_nat (n - (head - 100))).
    replace 101%nat with (i + S j)%nat by lia.
    rewrite countDown_split. cbn [countDown].
    replace (head - Z.of_nat i) with n by lia.
    destruct (main_scan_around client n err (countDown i head) (countDown j (n - 1)) He)
      as (tr1 & tr2 & E & Q1 & Q2 & E2).
    { rewrite countDown_In. lia. }
    { rewrite countDown_In. lia. }
    rewrite E. eexists. split; [reflexivity|].
    destruct (quiet_counts n tr1 Q1) as [F1 L1].
    destruct (quiet_counts n tr2 Q2) as [F2 L2].
    destruct (counts_app n tr1 ([EvFetch n; EvLog n err; EvSleep 250] ++ tr2)) as [-> ->].
    destruct (counts_app n [EvFetch n; EvLog n err; EvSleep 250] tr2) as [-> ->].
    rewrite F1, L1, F2, L2. unfold fetches, logs. cbn [filter isFetchOf isLogOf].
    rewrite Z.eqb_refl. repeat split; try reflexivity.
    intros Hlast.
    assert (Hj : j = S (pred j)) by lia. rewrite Hj in E2.
    cbn [countDown runBlocks] in E2.
    destruct (main_iteration_shape client (n - 1)) as (es & Ei & _).
    rewrite Ei in E2. rewrite bind_events in E2. cbn [fst snd] in E2.
    exists tr1. eexists. rewrite E2. cbn [app]. reflexivity.
  - rewrite (part_scan_blocks client fuel head Hf Hh).
    set (i := Z.to_nat (n - (head - 100))). set (j := Z.to_nat (head - n)).
    replace 101%nat with (i + S j)%nat by lia.
    rewrite countUp_split. cbn [countUp].
    replace (head - 100 + Z.of_nat i) with n by lia.
    destruct (part_scan_around client n err (countUp i (head - 100)) (countUp j (n + 1)) He)
      as (tr1 & tr2 & r & Q1 & Q2 & E2 & [E|E]).
    { rewrite countUp_In. lia. }
    { rewrite countUp_In. lia. }
    + rewrite E. exists tr1, None. split; [reflexivity|]. intros Hin.
      apply fetches_In in Hin. destruct (quiet_counts n tr1 Q1). lia.
    + rewrite E. eexists _, r. split; [reflexivity|]. intros _.
      destruct (quiet_counts n tr1 Q1) as [F1 L1].
      destruct (quiet_counts n tr2 Q2) as [F2 L2].
      destruct (counts_app n tr1 ([EvSleep 100; EvFetch n; EvLog n err] ++ tr2)) as [-> ->].
      destruct (counts_app n [EvSleep 100; EvFetch n; EvLog n err] tr2) as [-> ->].
      rewrite F1, L1, F2, L2. unfold fetches, logs. cbn [filter isFetchOf isLogOf].
      rewrite Z.eqb_refl. repeat split; try reflexivity.
      intros Hlast.
    assert (Hj : j = S (pred j)) by lia. rewrite Hj in E2.
      cbn [countUp runBlocks] in E2.
      destruct (part_iteration_shape client (n + 1)) as (es & r' & Ei & _).
      rewrite Ei in E2. rewrite bind_events in E2. cbn [fst snd] in E2.
      exists (tr1 ++ [EvSleep 100]). eexists. rewrite E2.
      rewrite <- app_assoc. cbn [app]. reflexivity.
Qed.

Lemma C2_fetch_failure_witness :
  main_go.processBlock (T := unicode.Latin1Only) failingClient 150
    (main_go.msgPattern (T := unicode.Latin1Only))
  = ([EvFetch 150; EvLog 150 (lit "timeout")], Some tt).
Proof.
  assert (Hh : headInRange 200) by (unfold headInRange; lia).
  assert (Hn : 200 - 100 <= 150 <= 200) by lia.
  assert (Hf : (101 < 102)%nat) by lia.
  exact (proj1 (proj1 (C2_fetch_failure (T := unicode.Latin1Only)
                         failingClient 200 150 (lit "timeout") 102
                         Hh Hn Hf eq_refl) _)).
Defined.

(** ** Reporting a transaction *)

Lemma printResults_loop_panics {T : unicode.Tables} (tx : Transaction)
    (blockNum : Z) (messages : list gostring) :
  To tx = None -> existsb part_000.isMeaningful messages = true ->
  part_000.printResults_loop tx blockNum messages false
  = ([EvPrint (LBlockTx blockNum (Hash tx))], None).
Proof.
  intros Hto. induction messages as [|msg rest IH]; [discriminate|].
  cbn [existsb part_000.printResults_loop].
  destruct (part_000.isMeaningful msg); [|exact IH].
  intros _. unfold part_000.To_Hex. rewrite Hto. reflexivity.
Qed.

(** C3, where the code fails it.  [processBlock] of [main.go] always
    returns, whatever the transactions.  In [part_000], a transaction
    without destination address whose payload yields an accepted
    message makes [analyzeTransaction] print the block line and then
    panic on [tx.To().Hex()]: no message is reported. *)
Theorem C3_report_without_destination {T : unicode.Tables}
    (client : Client) (tx : Transaction) (blockNum : Z)
    (pattern : regexp.Regexp) :
  snd (main_go.processBlock client blockNum pattern) = Some tt
  /\ (To tx = None ->
      existsb part_000.isMeaningful
        (part_000.analyzeTransaction_matches (Data tx) pattern) = true ->
      part_000.analyzeTransaction tx blockNum pattern
      = ([EvPrint (LBlockTx blockNum (Hash tx))], None)).
Proof.
  split.
  - destruct (main_processBlock_shape client blockNum pattern) as (es & -> & _).
    reflexivity.
  - intros Hto. unfold part_000.analyzeTransaction_matches,
      part_000.analyzeTransaction, part_000.printResults.
    destruct (length (Data tx) =? 0)%nat; [discriminate|].
    intros Hm. destruct (regexp.FindAllString pattern _) as [|m ms] eqn:E;
      [discriminate|].
    cbn [length Nat.ltb Nat.leb]. now apply printResults_loop_panics.
Qed.

Lemma C3_report_without_destination_witness :
  part_000.analyzeTransaction (T := unicode.Latin1Only)
    {| Hash := lit "0x01"; To := None;
       Data := lit "hello world this is a test" |} 7 part_000.msgPattern
  = ([EvPrint (LBlockTx 7 (lit "0x01"))], None).
Proof.
  refine (proj2 (C3_report_without_destination (T := unicode.Latin1Only)
                   failingClient
                   {| Hash := lit "0x01"; To := None;
                      Data := lit "hello world this is a test" |}
                   7 part_000.msgPattern) eq_refl _).
  vm_compute. reflexivity.
Defined.

(** ** The programs on small inputs *)

Example main_hello_world :
  main_go.analyzeTransaction (T := unicode.Latin1Only)
    {| Hash := lit "0x01"; To := None;
       Data := lit "hello world this is a test" |}
    (main_go.msgPattern (T := unicode.Latin1Only))
  = [lit "hello world this is a test"].
Proof. vm_compute. reflexivity. Qed.

Example main_short_tokens :
  main_go.analyzeTransaction (T := unicode.Latin1Only)
    {| Hash := lit "0x01"; To := None; Data := lit "xk qz 99" |}
    (main_go.msgPattern (T := unicode.Latin1Only))
  = [].
Proof. vm_compute. reflexivity. Qed.

(** Invalid bytes and the tab, which is not printable, are dropped. *)
Example main_binary_noise :
  main_go.decodeUTF8 (T := unicode.Latin1Only)
    ([x00; xff; xc3] ++ lit "  caf" ++ [xc3; xa9; x09; xe2; x82] ++ lit "ok ")
  = lit "caf" ++ [xc3; xa9] ++ lit "ok".
Proof. vm_compute. reflexivity. Qed.

Example part_hello_world :
  part_000.analyzeTransaction (T := unicode.Latin1Only)
    {| Hash := lit "0x01"; To := Some (lit "0x02");
       Data := [x00; x01] ++ lit "hello world this is a test" ++ [xff] |}
    7 part_000.msgPattern
  = ([EvPrint (LBlockTx 7 (lit "0x01")); EvPrint (LFrom (lit "0x02"));
      EvPrint LPossible;
      EvPrint (LMsg (lit "hello world this is a test"))], Some tt).
Proof. vm_compute. reflexivity. Qed.

Example part_two_candidates :
  regexp.FindAllString part_000.msgPattern (lit "ab!hello world?abc.wxyz")
  = [lit "hello world"; lit "wxyz"].
Proof. vm_compute. reflexivity. Qed.

Example hex_of_signature :
  hex.EncodeToString [xa9; x05; x9c; xbb] = lit "a9059cbb".
Proof. vm_compute. reflexivity. Qed.

(** * Further properties of the programs *)

(** ** The signature filter *)

Lemma unhex_EncodeToString (src : list byte) :
  unhex (hex.EncodeToString src) = src.
Proof.
  induction src as [|v src IH]; [reflexivity|].
  cbn [hex.EncodeToString flat_map app unhex].
  fold (hex.EncodeToString src). rewrite IH. f_equal.
  destruct v; vm_compute; reflexivity.
Qed.

Lemma EncodeToString_inj (a b : list byte) :
  hex.EncodeToString a = hex.EncodeToString b -> a = b.
Proof.
  intros H. rewrite <- (unhex_EncodeToString a), <- (unhex_EncodeToString b).
  now rewrite H.
Qed.

Lemma bytes_eqb_eq (a b : gostring) : bytes_eqb a b = true -> a = b.
Proof.
  revert b. induction a as [|x a IH]; intros [|y b]; cbn [bytes_eqb];
    try discriminate; [reflexivity|].
  intros H. apply andb_prop in H. destruct H as [H1 H2].
  apply Byte.byte_dec_bl in H1. subst y. f_equal. now apply IH.
Qed.

Lemma map_lookup_Some (m : list (gostring * gostring)) (key v : gostring) :
  main_go.map_lookup m key = Some v -> In key (map fst m).
Proof.
  unfold main_go.map_lookup. induction m as [|kv m IH]; [discriminate|].
  cbn [find map In]. destruct (bytes_eqb (fst kv) key) eqn:E.
  - intros _. left. now apply bytes_eqb_eq.
  - intros H. right. now apply IH.
Qed.

Lemma selectors_keys :
  map hex.EncodeToString selectors = map fst main_go.functionSignatures.
Proof. vm_compute. reflexivity. Qed.

(** X1.  [isContractCall] holds exactly for the payloads of four bytes
    or more whose first four bytes are one of the ten selectors of the
    table; the bytes behind them play no part. *)
Theorem X1_isContractCall_selectors (data : list byte) :
  main_go.isContractCall data = true
  <-> (4 <= length data)%nat /\ In (firstn 4 data) selectors.
Proof.
  split.
  - unfold main_go.isContractCall.
    destruct (Nat.ltb_spec (length data) 4) as [H|H]; [discriminate|].
    destruct (main_go.map_lookup _ _) as [v|] eqn:E; [|discriminate].
    intros _. split; [exact H|].
    apply map_lookup_Some in E. rewrite <- selectors_keys in E.
    apply in_map_iff in E. destruct E as (sel & E & Hin).
    apply EncodeToString_inj in E. now subst sel.
  - intros [H Hin]. apply isContractCall_matches. split; [exact H|].
    rewrite <- selectors_keys. now apply in_map.
Qed.

(** ** The length of an accepted message *)

Lemma fields_aux_bytes (cur cs : list chunk) :
  Forall (fun c : chunk => snd c <> []) cs ->
  (length (concat (map flatten (strings.fields_aux cur cs)))
   + length (strings.fields_aux cur cs)
   <= length (flatten cur) + length (flatten cs) + 1)%nat.
Proof.
  intros H. revert cur. induction H as [|c cs Hc _ IH]; intros cur.
  - cbn [strings.fields_aux]. destruct cur as [|x cur].
    + cbn. lia.
    + cbn [map concat length]. rewrite app_nil_r. cbn [flatten map concat length]. lia.
  - cbn [strings.fields_aux]. rewrite (flatten_cons c cs), length_app.
    assert (1 <= length (snd c))%nat by (destruct (snd c); [congruence|cbn; lia]).
    destruct (unicode.IsSpace (fst c)).
    + destruct cur as [|x cur].
      * specialize (IH []). cbn [flatten map concat length] in *. lia.
      * specialize (IH []). cbn [map concat length] in *.
        rewrite length_app. cbn [flatten map concat length] in *. lia.
    + specialize (IH (cur ++ [c])). rewrite flatten_app, length_app in IH.
      rewrite (flatten_cons c []) in IH. cbn [flatten map concat] in IH.
      rewrite app_nil_r in IH. lia.
Qed.

Lemma Fields_bytes (s : gostring) :
  (length (concat (strings.Fields s)) + length (strings.Fields s)
   <= length s + 1)%nat.
Proof.
  unfold strings.Fields. rewrite length_map.
  pose proof (fields_aux_bytes [] (utf8.runes s) (runes_nonempty s)) as H.
  rewrite flatten_runes in H. cbn [flatten map concat length] in H. lia.
Qed.

Lemma concat_filter_length {A} (f : list A -> bool) (k : nat) (ws : list (list A)) :
  (forall w, f w = true -> (k <= length w)%nat) ->
  (k * length (filter f ws) <= length (concat ws))%nat.
Proof.
  intros Hf. induction ws as [|w ws IH]; [cbn; lia|].
  cbn [filter concat]. rewrite length_app. destruct (f w) eqn:E.
  - specialize (Hf w E). cbn [length]. lia.
  - lia.
Qed.

Lemma validWord_light_length {T : unicode.Tables} (w : gostring) :
  part_000.validWord w = true -> (3 <= length w)%nat.
Proof.
  unfold part_000.validWord, part_000.minWordLength. intros H.
  apply andb_prop in H. destruct H as [H _]. now apply Nat.leb_le in H.
Qed.

(** X2.  A message that either classifier accepts has at least
    [2 * minWordLength + 1 = 7] bytes: two words of three bytes and the
    white space between them. *)
Theorem X2_accepted_length {T : unicode.Tables} (s : gostring) :
  part_000.isMeaningful s = true \/ main_go.isValidMessage s = true ->
  (2 * part_000.minWordLength + 1 <= length s)%nat.
Proof.
  intros H.
  assert (Hl : (2 <= validWords_light s)%nat).
  { destruct H as [H|H].
    - rewrite isMeaningful_spec in H. now apply Nat.leb_le in H.
    - rewrite isValidMessage_spec in H. apply andb_prop in H.
      destruct H as [_ H]. apply Nat.leb_le in H.
      pose proof (validWords_light_ge_strong s). lia. }
  unfold validWords_light in Hl.
  pose proof (concat_filter_length part_000.validWord 3 (strings.Fields s)
                validWord_light_length) as H1.
  pose proof (filter_length_le part_000.validWord (strings.Fields s)) as H2.
  pose proof (Fields_bytes s) as H3.
  unfold part_000.minWordLength. lia.
Qed.

Lemma X2_accepted_length_witness :
  (2 * part_000.minWordLength + 1 <= length (lit "abc def"))%nat.
Proof.
  apply (X2_accepted_length (T := unicode.Latin1Only)).
  left. vm_compute. reflexivity.
Defined.

(** ** More on the byte decoders *)

Lemma Join_space_length (ws : list gostring) :
  length (strings.Join ws (lit " ")) = (length (concat ws) + (length ws - 1))%nat.
Proof.
  induction ws as [|w ws IH]; [reflexivity|].
  destruct ws as [|w' ws].
  - cbn. rewrite app_nil_r. lia.
  - change (strings.Join (w :: w' :: ws) (lit " "))
      with (w ++ lit " " ++ strings.Join (w' :: ws) (lit " ")).
    rewrite !length_app, IH. cbn [concat length lit].
    rewrite !length_app. cbn. lia.
Qed.

Lemma Join_Fields_length (s : gostring) :
  (length (strings.Join (strings.Fields s) (lit " ")) <= length s)%nat.
Proof.
  rewrite Join_space_length. pose proof (Fields_bytes s).
  destruct (strings.Fields s); cbn [length concat] in *; lia.
Qed.

Section DecoderLength.
Context {T : unicode.Tables}.

Lemma decodeUTF8_loop_length (fuel : nat) (data sb : list byte) :
  (length (main_go.decodeUTF8_loop fuel data sb) <= length sb + length data)%nat.
Proof.
  revert data sb. induction fuel as [|fuel IH]; intros data sb; [cbn; lia|].
  destruct data as [|b t]; [cbn; lia|].
  cbn [main_go.decodeUTF8_loop]. rewrite DecodeRune_decode.
  pose proof (decode_size b t) as Hs.
  destruct (utf8_spec.decode (b :: t)) as [r n] eqn:Hd. cbn [snd] in Hs.
  destruct (Z.eqb_spec r utf8.RuneError) as [Hr|Hr].
  - specialize (IH (skipn 1 (b :: t)) sb). cbn [skipn length] in *. lia.
  - destruct (decode_valid _ _ _ Hd Hr) as [He _].
    assert (Hlen : length (utf8.EncodeRune r) = n).
    { rewrite He, length_firstn. cbn [length] in *. lia. }
    destruct (unicode.IsPrint r).
    + specialize (IH (skipn n (b :: t)) (sb ++ utf8.EncodeRune r)).
      rewrite length_app, length_skipn in IH. cbn [length] in *. lia.
    + specialize (IH (skipn n (b :: t)) sb).
      rewrite length_skipn in IH. cbn [length] in *. lia.
Qed.

End DecoderLength.

(** X3.  Neither decoder gives more bytes than it was given. *)
Theorem X3_decoder_length {T : unicode.Tables} (data : list byte) :
  (length (main_go.decodeUTF8 data) <= length data)%nat
  /\ (length (part_000.filterPrintable data) <= length data)%nat.
Proof.
  split.
  - unfold main_go.decodeUTF8.
    pose proof (Join_Fields_length
                  (main_go.decodeUTF8_loop (length data) data [])) as H1.
    pose proof (decodeUTF8_loop_length (length data) data []) as H2.
    cbn [length] in H2. lia.
  - unfold part_000.filterPrintable.
    match goal with |- context [strings.Fields ?sb] =>
      pose proof (Join_Fields_length sb) as H1 end.
    rewrite length_map in H1. exact H1.
Qed.

(** X4.  The output of [decodeUTF8] is valid UTF-8: read back rune by
    rune, no rune is [RuneError], every rune is printable, and every
    rune stands there in its own encoding. *)
Theorem X4_decodeUTF8_valid {T : unicode.Tables} (data : list byte) :
  Forall (fun c : chunk =>
            fst c <> utf8.RuneError
            /\ unicode.IsPrint (fst c) = true
            /\ snd c = utf8.EncodeRune (fst c))
         (utf8.runes (main_go.decodeUTF8 data)).
Proof.
  destruct (decodeUTF8_shape data) as (cs & Hcs & ->).
  rewrite Join_Fields_valid by (now apply good_Valid).
  pose proof (joinC_fields_good cs Hcs) as H.
  rewrite runes_valid by (now apply good_Valid).
  eapply Forall_impl; [|exact H]. intros c (_ & He & Hr & Hp). auto.
Qed.

Lemma asciiGood_good {T : unicode.Tables} (cs : list chunk) :
  Forall asciiGood cs -> Forall good cs.
Proof.
  apply Forall_impl. intros c (b & -> & Hb).
  pose proof (printableByte_range b Hb) as R.
  split; [apply Valid_ascii; lia|]. cbn [fst snd]. repeat split.
  - unfold utf8.EncodeRune, utf8.rune1Max.
    destruct (Z.leb_spec 0 (b2z b)); [|lia].
    destruct (Z.leb_spec (b2z b) 0x7F); [|lia].
    cbn [andb]. now rewrite z2b_b2z.
  - unfold utf8.RuneError. lia.
  - unfold unicode.IsPrint, unicode.latin1, unicode.latin1_print,
      unicode.between, unicode.MaxLatin1.
    destruct (Z.leb_spec 0 (b2z b)); [|lia].
    destruct (Z.leb_spec (b2z b) 0xFF); [|lia].
    destruct (Z.leb_spec 0x20 (b2z b)); [|lia].
    destruct (Z.leb_spec (b2z b) 0x7E); [|lia]. reflexivity.
Qed.

Lemma printable_asciiGood (data : list byte) :
  Forall (fun b => printableByte b = true) data ->
  Forall asciiGood (asciiChunks data).
Proof.
  intros H. unfold asciiChunks. rewrite Forall_map.
  eapply Forall_impl; [|exact H]. intros b Hb. now exists b.
Qed.

Lemma decodeUTF8_printable {T : unicode.Tables} (data : list byte) :
  Forall (fun b => printableByte b = true) data ->
  main_go.decodeUTF8 data = part_000.filterPrintable data.
Proof.
  intros H. unfold main_go.decodeUTF8, part_000.filterPrintable.
  change (fun b => if (part_000.asciiPrintable <=? b2z b)
                      && (b2z b <=? part_000.asciiMax) then b else x20)
    with keep.
  rewrite map_keep_fix by assumption.
  pose proof (asciiGood_good _ (printable_asciiGood data H)) as Hg.
  rewrite <- (flatten_asciiChunks data) at 1 2.
  rewrite decodeUTF8_loop_fix by (try exact Hg; apply le_n).
  cbn [app]. now rewrite flatten_asciiChunks.
Qed.

(** X5.  On a payload of printable ASCII bytes only (32 to 126) the two
    decoding strategies give the same text. *)
Theorem X5_decoders_agree {T : unicode.Tables} (data : list byte) :
  Forall (fun b => 32 <= b2z b <= 126) data ->
  main_go.decodeUTF8 data = part_000.filterPrintable data.
Proof.
  intros H. apply decodeUTF8_printable.
  eapply Forall_impl; [|exact H]. intros b Hb. cbv beta in Hb.
  unfold printableByte, part_000.asciiPrintable, part_000.asciiMax.
  apply andb_true_intro. split; apply Z.leb_le; lia.
Qed.

Lemma X5_decoders_agree_witness :
  main_go.decodeUTF8 (T := unicode.Latin1Only) (lit "  hello   world ")
  = part_000.filterPrintable (lit "  hello   world ").
Proof.
  apply (X5_decoders_agree (T := unicode.Latin1Only)).
  repeat constructor; vm_compute; discriminate.
Defined.

Lemma filterPrintable_printable (data : list byte) :
  Forall (fun b => printableByte b = true) (part_000.filterPrintable data).
Proof.
  destruct (filterPrintable_shape data) as (cs & Hcs & ->).
  rewrite Join_Fields_valid by (now apply asciiGood_Valid).
  apply asciiGood_bytes. apply joinC_Forall.
  - exists x20. split; reflexivity.
  - apply fields_aux_Forall; [constructor|exact Hcs].
Qed.

(** X6.  Every byte of the output of [filterPrintable] is printable
    ASCII (32 to 126), and [decodeUTF8] leaves that output as it is. *)
Theorem X6_filterPrintable_ascii {T : unicode.Tables} (data : list byte) :
  Forall (fun b => 32 <= b2z b <= 126) (part_000.filterPrintable data)
  /\ main_go.decodeUTF8 (part_000.filterPrintable data)
     = part_000.filterPrintable data.
Proof.
  pose proof (filterPrintable_printable data) as H. split.
  - eapply Forall_impl; [|exact H]. intros b. apply printableByte_range.
  - rewrite (decodeUTF8_printable _ H).
    destruct (filterPrintable_shape data) as (cs & Hcs & E).
    unfold part_000.filterPrintable at 1.
    change (fun b => if (part_000.asciiPrintable <=? b2z b)
                        && (b2z b <=? part_000.asciiMax) then b else x20)
      with keep.
    rewrite map_keep_fix by exact H.
    rewrite E. apply Join_Fields_idem. now apply asciiGood_Valid.
Qed.

(** ** More on the classifiers and the per-transaction pipelines *)

(** X7.  Each classifier decides by its count of valid words alone (and,
    in [main.go], the letter ratio): the early return on the number of
    words never changes the answer. *)
Theorem X7_classifier_iff {T : unicode.Tables} (s : gostring) :
  (part_000.isMeaningful s = true
   <-> (part_000.minWords <= validWords_light s)%nat)
  /\ (main_go.isValidMessage s = true
      <-> (main_go.minWords <= validWords_strong s)%nat
          /\ main_go.letterRatio_num * snd (main_go.countChars s)
             <= fst (main_go.countChars s) * main_go.letterRatio_den).
Proof.
  unfold part_000.minWords, main_go.minWords, main_go.letterRatio_num,
    main_go.letterRatio_den. split.
  - rewrite isMeaningful_spec. apply Nat.leb_le.
  - rewrite isValidMessage_spec.
    pose proof (filter_length_le main_go.validWord (strings.Fields s)) as Hle.
    fold (validWords_strong s) in Hle.
    rewrite !andb_true_iff, !Nat.leb_le, Z.leb_le. split.
    + intros [[_ H2] H3]. split; assumption.
    + intros [H3 H2]. repeat split; try assumption. lia.
Qed.

Lemma FindAllString_nil (re : regexp.Regexp) : regexp.FindAllString re [] = [].
Proof. reflexivity. Qed.

Lemma decodeUTF8_nil {T : unicode.Tables} : main_go.decodeUTF8 [] = [].
Proof. reflexivity. Qed.

Lemma length_zero_nil {A} (l : list A) : (length l =? 0)%nat = true -> l = [].
Proof. destruct l; [reflexivity|discriminate]. Qed.


Section Report.
Context {T : unicode.Tables}.

Lemma printResults_loop_shown (tx : Transaction) (blockNum : Z)
    (messages : list gostring) :
  part_000.printResults_loop tx blockNum messages true
  = (map (fun m => EvPrint (LMsg m)) (filter part_000.isMeaningful messages),
     Some tt).
Proof.
  induction messages as [|msg rest IH]; [reflexivity|].
  cbn [part_000.printResults_loop filter negb].
  destruct (part_000.isMeaningful msg); [|exact IH].
  rewrite IH. reflexivity.
Qed.

Lemma printResults_report (tx : Transaction) (blockNum : Z) (addr : gostring)
    (messages : list gostring) :
  To tx = Some addr ->
  part_000.printResults tx blockNum messages
  = (report blockNum (Hash tx) addr (filter part_000.isMeaningful messages),
     Some tt).
Proof.
  intros Hto. unfold part_000.printResults.
  induction messages as [|msg rest IH]; [reflexivity|].
  cbn [part_000.printResults_loop filter negb].
  destruct (part_000.isMeaningful msg); [|exact IH].
  rewrite printResults_loop_shown. unfold part_000.To_Hex. rewrite Hto.
  reflexivity.
Qed.

End Report.

(** X9.  For a transaction with a destination address,
    [analyzeTransaction] of [part_000] returns normally and prints the
    report of the candidates of the filtered payload that [isMeaningful]
    accepts: nothing at all when there are none, else the block and
    transaction line, the address line and the heading once, then the
    messages in order. *)
Theorem X9_part_analyzeTransaction {T : unicode.Tables} (tx : Transaction)
    (blockNum : Z) (addr : gostring) (pattern : regexp.Regexp) :
  To tx = Some addr ->
  part_000.analyzeTransaction tx blockNum pattern
  = (report blockNum (Hash tx) addr
       (filter part_000.isMeaningful
          (regexp.FindAllString pattern (part_000.filterPrintable (Data tx)))),
     Some tt).
Proof.
  intros Hto. unfold part_000.analyzeTransaction.
  destruct (length (Data tx) =? 0)%nat eqn:E.
  - apply length_zero_nil in E. rewrite E. reflexivity.
  - destruct (regexp.FindAllString pattern _) as [|m ms] eqn:Em; [reflexivity|].
    cbn [length Nat.ltb Nat.leb]. now apply printResults_report.
Qed.

Lemma X9_part_analyzeTransaction_witness :
  part_000.analyzeTransaction (T := unicode.Latin1Only)
    {| Hash := lit "0x01"; To := Some (lit "0x02");
       Data := lit "hi!hello big world" |} 7 part_000.msgPattern
  = ([EvPrint (LBlockTx 7 (lit "0x01")); EvPrint (LFrom (lit "0x02"));
      EvPrint LPossible; EvPrint (LMsg (lit "hello big world"))], Some tt).
Proof.
  exact (X9_part_analyzeTransaction (T := unicode.Latin1Only)
           {| Hash := lit "0x01"; To := Some (lit "0x02");
              Data := lit "hi!hello big world" |} 7 (lit "0x02")
           part_000.msgPattern eq_refl).
Defined.

(** ** The scans as a whole *)

Section Pacing.
Context {T : unicode.Tables}.
Variable client : Client.

Lemma prints_not_pacing (es : list event) :
  Forall isPrint es -> filter isPacing es = [].
Proof.
  induction 1 as [|e es [l ->] _ IH]; [reflexivity|]. exact IH.
Qed.

Lemma main_processBlock_pacing (b : Z) (pattern : regexp.Regexp) :
  exists es, main_go.processBlock client b pattern = (EvFetch b :: es, Some tt)
             /\ filter isPacing es = [].
Proof.
  unfold main_go.processBlock.
  destruct (BlockByNumber client b) as [txs|err].
  - set (outs := flat_map _ txs).
    destruct (0 <? length outs)%nat.
    + rewrite forEach_emit_total. eexists. split; [reflexivity|].
      apply prints_not_pacing. constructor; [now eexists|].
      rewrite Forall_map. apply Forall_forall. intros l _. now eexists.
    + eexists. split; reflexivity.
  - eexists. split; reflexivity.
Qed.

Lemma main_runBlocks_pacing (bs : list Z) :
  exists tr, runBlocks (main_go_iteration client) bs = (tr, Some tt)
             /\ filter isPacing tr
                = flat_map (fun b => [EvFetch b; EvSleep 250]) bs.
Proof.
  induction bs as [|b bs (tr & E & IH)]; [exists []; split; reflexivity|].
  cbn [runBlocks flat_map]. unfold main_go_iteration at 1.
  destruct (main_processBlock_pacing b main_go.msgPattern) as (es & -> & Hes).
  rewrite E. eexists. split; [reflexivity|].
  cbn [app filter isPacing]. rewrite !filter_app, Hes. cbn [filter isPacing app].
  now rewrite IH.
Qed.

Lemma part_analyzeTransaction_total (tx : Transaction) (blockNum : Z)
    (pattern : regexp.Regexp) :
  To tx <> None ->
  snd (part_000.analyzeTransaction tx blockNum pattern) = Some tt.
Proof.
  intros Hto. unfold part_000.analyzeTransaction.
  destruct (length (Data tx) =? 0)%nat; [reflexivity|].
  destruct (0 <? length _)%nat; [|reflexivity].
  destruct (To tx) as [addr|] eqn:E; [|congruence].
  now rewrite (printResults_report tx blockNum addr _ E).
Qed.

Lemma forEach_total {A} (xs : list A) (body : A -> IO unit) :
  Forall (fun x => snd (body x) = Some tt) xs ->
  snd (forEach xs body) = Some tt.
Proof.
  induction 1 as [|x xs Hx _ IH]; [reflexivity|].
  cbn [forEach]. rewrite bind_result, Hx. exact IH.
Qed.

Lemma part_processBlock_pacing (b : Z) (pattern : regexp.Regexp) :
  allHaveDestination client ->
  exists es, part_000.processBlock client b pattern = (EvFetch b :: es, Some tt)
             /\ filter isPacing es = [].
Proof.
  intros Hall. unfold part_000.processBlock.
  destruct (BlockByNumber client b) as [txs|err] eqn:Eb.
  - pose proof (forEach_Forall isPrint txs
      (fun tx => part_000.analyzeTransaction tx b pattern)
      (fun tx => part_analyzeTransaction_prints tx b pattern)) as Hp.
    assert (Ht : snd (forEach txs
                   (fun tx => part_000.analyzeTransaction tx b pattern)) = Some tt).
    { apply forEach_total. eapply Forall_impl; [|exact (Hall b txs Eb)].
      intros tx Htx. now apply part_analyzeTransaction_total. }
    destruct (forEach txs _) as [es r]. cbn [fst snd] in *. subst r.
    exists es. split; [reflexivity|]. now apply prints_not_pacing.
  - eexists. split; reflexivity.
Qed.

Lemma part_runBlocks_pacing (bs : list Z) :
  allHaveDestination client ->
  exists tr, runBlocks (part_000_iteration client) bs = (tr, Some tt)
             /\ filter isPacing tr
                = flat_map (fun b => [EvSleep 100; EvFetch b]) bs.
Proof.
  intros Hall.
  induction bs as [|b bs (tr & E & IH)]; [exists []; split; reflexivity|].
  cbn [runBlocks flat_map]. unfold part_000_iteration at 1.
  destruct (part_processBlock_pacing b part_000.msgPattern Hall) as (es & -> & Hes).
  rewrite E. eexists. split; [reflexivity|].
  cbn [app filter isPacing]. rewrite !filter_app, Hes. cbn [app].
  now rewrite IH.
Qed.

End Pacing.

(** X10.  The scan of [main.go] always runs to its end: whatever the
    ledger returns, it fetches the 101 blocks from the head down to
    [head - 100], each once and in this order, and pauses 250 ms after
    each, failed fetch or not. *)
Theorem X10_main_scan_complete {T : unicode.Tables} (client : Client)
    (head : Z) (fuel : nat) :
  headInRange head -> (101 < fuel)%nat ->
  exists tr,
    main_go.scan fuel client head = Some (tr, Some tt)
    /\ filter isPacing tr
       = flat_map (fun b => [EvFetch b; EvSleep 250]) (countDown 101 head).
Proof.
  intros Hh Hf. rewrite (main_scan_blocks client fuel head Hf Hh).
  destruct (main_runBlocks_pacing client (countDown 101 head)) as (tr & -> & H).
  exists tr. split; [reflexivity|exact H].
Qed.

Lemma X10_main_scan_complete_witness :
  exists tr,
    main_go.scan (T := unicode.Latin1Only) 102 failingClient 200
    = Some (tr, Some tt)
    /\ filter isPacing tr
       = flat_map (fun b => [EvFetch b; EvSleep 250]) (countDown 101 200).
Proof.
  assert (Hh : headInRange 200) by (unfold headInRange; lia).
  assert (Hf : (101 < 102)%nat) by lia.
  exact (X10_main_scan_complete (T := unicode.Latin1Only) failingClient 200 102
           Hh Hf).
Defined.

(** X11.  When every transaction of the ledger has a destination
    address, the scan of [part_000] runs to its end: it pauses 100 ms
    and then fetches, for the 101 blocks from [head - 100] up to the
    head, each once and in this order. *)
Theorem X11_part_scan_complete {T : unicode.Tables} (client : Client)
    (head : Z) (fuel : nat) :
  headInRange head -> (101 < fuel)%nat -> allHaveDestination client ->
  exists tr,
    part_000.scan fuel client head = Some (tr, Some tt)
    /\ filter isPacing tr
       = flat_map (fun b => [EvSleep 100; EvFetch b])
           (countUp 101 (head - 100)).
Proof.
  intros Hh Hf Hall. rewrite (part_scan_blocks client fuel head Hf Hh).
  destruct (part_runBlocks_pacing client (countUp 101 (head - 100)) Hall)
    as (tr & -> & H).
  exists tr. split; [reflexivity|exact H].
Qed.

Lemma failingClient_destinations : allHaveDestination failingClient.
Proof.
  intros n txs H. unfold failingClient in H. cbn in H.
  destruct (n =? 150); [discriminate|]. injection H as <-. constructor.
Defined.

Lemma X11_part_scan_complete_witness :
  exists tr,
    part_000.scan (T := unicode.Latin1Only) 102 failingClient 200
    = Some (tr, Some tt)
    /\ filter isPacing tr
       = flat_map (fun b => [EvSleep 100; EvFetch b]) (countUp 101 (200 - 100)).
Proof.
  assert (Hh : headInRange 200) by (unfold headInRange; lia).
  assert (Hf : (101 < 102)%nat) by lia.
  exact (X11_part_scan_complete (T := unicode.Latin1Only) failingClient 200 102
           Hh Hf failingClient_destinations).
Defined.

(** ** What is extracted and what is printed *)

Lemma asciiGood_class_bytes (re : regexp.Regexp) (m : list chunk) :
  Forall asciiGood m -> Forall (inClass re) m ->
  Forall (fun b => regexp.class re (b2z b) = true) (flatten m).
Proof.
  induction 1 as [|c m (b & -> & _) _ IH]; intros Hc; [constructor|].
  inversion Hc as [|? ? Hb Hm]; subst.
  rewrite flatten_cons. cbn [snd app]. constructor; [exact Hb|now apply IH].
Qed.

(** X12.  Every candidate [part_000] extracts from a payload has at
    least four bytes, each of them a letter a-z or A-Z, a digit or a
    space. *)
Theorem X12_part_candidates (data : list byte) (c : gostring) :
  In c (regexp.FindAllString part_000.msgPattern
          (part_000.filterPrintable data)) ->
  (part_000.minMsgLength <= length c)%nat
  /\ Forall (fun b => regexp.class part_000.msgPattern (b2z b) = true) c.
Proof.
  intros Hin.
  assert (Hn : (1 <= regexp.atLeast part_000.msgPattern)%nat)
    by (cbn; unfold part_000.minMsgLength; lia).
  split.
  - destruct (FindAllString_extracts part_000.msgPattern
                (part_000.filterPrintable data) Hn) as (_ & _ & H).
    rewrite Forall_forall in H. exact (H c Hin).
  - destruct (filterPrintable_shape data) as (cs & Hcs & E).
    rewrite E in Hin. rewrite Join_Fields_valid in Hin
      by (now apply asciiGood_Valid).
    assert (Hg : Forall asciiGood (joinC (strings.fields_aux [] cs))).
    { apply joinC_Forall; [exists x20; split; reflexivity|].
      apply fields_aux_Forall; [constructor|exact Hcs]. }
    unfold regexp.FindAllString in Hin.
    rewrite runes_valid in Hin by (now apply asciiGood_Valid).
    fold (findAll part_000.msgPattern (joinC (strings.fields_aux [] cs))) in Hin.
    pose proof (findAll_Extraction part_000.msgPattern Hn
                  (joinC (strings.fields_aux [] cs))) as HE.
    apply in_map_iff in Hin. destruct Hin as (m & <- & Hm).
    pose proof (Extraction_matches _ _ _ HE) as H1.
    pose proof (Extraction_Forall _ _ _ _ HE Hg) as H2.
    rewrite Forall_forall in H1, H2.
    apply asciiGood_class_bytes; [exact (H2 m Hm)|exact (proj1 (H1 m Hm))].
Qed.

Lemma X12_part_candidates_witness :
  (part_000.minMsgLength <= length (lit "hello world"))%nat
  /\ Forall (fun b => regexp.class part_000.msgPattern (b2z b) = true)
            (lit "hello world").
Proof.
  apply (X12_part_candidates (lit "ab!hello world?")).
  vm_compute. left. reflexivity.
Defined.




(** ** Control bytes in the two decoders *)

Lemma IsPrint_ascii {T : unicode.Tables} (b : byte) :
  b2z b < 0x80 -> unicode.IsPrint (b2z b) = printableByte b.
Proof.
  intros H. pose proof (b2z_range b) as R.
  unfold unicode.IsPrint, unicode.latin1, unicode.latin1_print,
    unicode.between, unicode.MaxLatin1, printableByte,
    part_000.asciiPrintable, part_000.asciiMax.
  destruct (Z.leb_spec 0 (b2z b)); [|lia].
  destruct (Z.leb_spec (b2z b) 0xFF); [|lia]. cbn [andb].
  destruct (Z.leb_spec 0xA1 (b2z b)); [lia|].
  destruct (Z.leb_spec 0xAE (b2z b)); [lia|]. cbn [andb].
  rewrite !orb_false_r. reflexivity.
Qed.

Lemma decodeUTF8_loop_ascii {T : unicode.Tables} (data : list byte) :
  Forall (fun b => b2z b < 0x80) data ->
  forall fuel sb, (length data <= fuel)%nat ->
  main_go.decodeUTF8_loop fuel data sb = sb ++ filter printableByte data.
Proof.
  induction 1 as [|b t Hb _ IH]; intros fuel sb Hf.
  - destruct fuel; cbn; now rewrite app_nil_r.
  - destruct fuel as [|fuel]; [cbn in Hf; lia|].
    cbn [main_go.decodeUTF8_loop]. rewrite DecodeRune_decode, decode_ascii by assumption.
    pose proof (b2z_range b) as R.
    destruct (Z.eqb_spec (b2z b) utf8.RuneError) as [E|_];
      [unfold utf8.RuneError in E; lia|].
    rewrite IsPrint_ascii by assumption. cbn [skipn filter].
    rewrite IH by (cbn [length] in Hf; lia).
    destruct (printableByte b); [|reflexivity].
    unfold utf8.EncodeRune, utf8.rune1Max.
    destruct (Z.leb_spec 0 (b2z b)); [|lia].
    destruct (Z.leb_spec (b2z b) 0x7F); [|lia].
    cbn [andb]. rewrite z2b_b2z, <- app_assoc. reflexivity.
Qed.

(** X14.  On a payload of 7-bit bytes, [decodeUTF8] deletes the bytes
    that are not printable (control bytes, tab and line feed among
    them) before it normalises white space, whereas [filterPrintable]
    puts a space for each of them: a control byte joins its neighbours
    into one word in the first program and parts them in the second. *)
Theorem X14_control_bytes {T : unicode.Tables} (data : list byte) :
  Forall (fun b => b2z b < 0x80) data ->
  main_go.decodeUTF8 data
  = strings.Join (strings.Fields (filter printableByte data)) (lit " ")
  /\ part_000.filterPrintable data
     = strings.Join
         (strings.Fields
            (map (fun b => if printableByte b then b else x20) data))
         (lit " ").
Proof.
  intros H. split; [|reflexivity].
  unfold main_go.decodeUTF8.
  now rewrite (decodeUTF8_loop_ascii data H _ [] (le_n _)).
Qed.

Lemma X14_control_bytes_witness :
  main_go.decodeUTF8 (T := unicode.Latin1Only) (lit "ab" ++ [x09] ++ lit "cd")
  = lit "abcd"
  /\ part_000.filterPrintable (lit "ab" ++ [x09] ++ lit "cd") = lit "ab cd".
Proof.
  apply (X14_control_bytes (T := unicode.Latin1Only)
           (lit "ab" ++ [x09] ++ lit "cd")).
  repeat constructor.
Defined.

(** ** Words of 7-bit bytes, and the candidates of [main.go] *)

Lemma runes_ascii (s : gostring) :
  Forall (fun b => b2z b < 0x80) s -> utf8.runes s = asciiChunks s.
Proof.
  induction 1 as [|b s Hb _ IH]; [reflexivity|].
  rewrite runes_ascii_cons by assumption. cbn [asciiChunks map]. now rewrite IH.
Qed.

Lemma isVowel_ascii_letter {T : unicode.Tables} (r : rune) :
  r < 0x80 -> main_go.isVowel r = true -> unicode.IsLetter r = true.
Proof.
  intros Hr. unfold main_go.isVowel, unicode.ToLower, unicode.MaxASCII,
    unicode.between.
  destruct (Z.leb_spec r 0x7F); [|lia].
  intros Hi.
  assert (Hv : In r [0x61; 0x65; 0x69; 0x6F; 0x75; 0x41; 0x45; 0x49; 0x4F; 0x55]).
  { destruct ((0x41 <=? r) && (r <=? 0x5A)) eqn:E;
      rewrite ?orb_true_iff, ?Z.eqb_eq in Hi; cbn [In]; lia. }
  cbn [In] in Hv.
  destruct Hv as [<-|[<-|[<-|[<-|[<-|[<-|[<-|[<-|[<-|[<-|[]]]]]]]]]]]; reflexivity.
Qed.

(** X15.  In a word of 7-bit bytes a vowel is a letter: there
    [hasVowel] implies [hasLetters], and a word is valid for [main.go]
    exactly when it has at least [minWordLength] bytes and a vowel. *)
Theorem X15_ascii_vowel_is_letter {T : unicode.Tables} (w : gostring) :
  Forall (fun b => b2z b < 0x80) w ->
  (main_go.hasVowel w = true -> main_go.hasLetters w = true)
  /\ main_go.validWord w
     = (main_go.minWordLength <=? length w)%nat && main_go.hasVowel w.
Proof.
  intros H.
  assert (Hv : main_go.hasVowel w = true -> main_go.hasLetters w = true).
  { unfold main_go.hasVowel, main_go.hasLetters.
    rewrite (runes_ascii w H), !existsb_exists.
    intros (c & Hc & Hvow). exists c. split; [exact Hc|].
    unfold asciiChunks in Hc. apply in_map_iff in Hc.
    destruct Hc as (b & <- & Hb). cbn [fst] in *.
    rewrite Forall_forall in H. apply isVowel_ascii_letter; [now apply H|exact Hvow]. }
  split; [exact Hv|]. unfold main_go.validWord.
  destruct (main_go.hasVowel w) eqn:E.
  - rewrite (Hv eq_refl), !andb_true_r. reflexivity.
  - now rewrite !andb_false_r.
Qed.

Lemma X15_ascii_vowel_is_letter_witness :
  main_go.validWord (T := unicode.Latin1Only) (lit "e22")
  = (main_go.minWordLength <=? length (lit "e22"))%nat
    && main_go.hasVowel (T := unicode.Latin1Only) (lit "e22").
Proof.
  apply (X15_ascii_vowel_is_letter (T := unicode.Latin1Only) (lit "e22")).
  repeat constructor.
Defined.

Lemma good_class_rune {T : unicode.Tables} (c : chunk) :
  good c -> inClass main_go.msgPattern c ->
  unicode.IsLetter (fst c) || unicode.IsNumber (fst c) || (fst c =? 0x20) = true.
Proof.
  intros (_ & _ & _ & Hp) Hc. unfold inClass in Hc. cbn [regexp.class main_go.msgPattern] in Hc.
  destruct (unicode.IsLetter (fst c) || unicode.IsNumber (fst c)); [reflexivity|].
  cbn [orb] in *. unfold regexp.perl_space in Hc.
  destruct (Z.eqb_spec (fst c) 0x20) as [|Hne]; [reflexivity|].
  exfalso. revert Hp.
  rewrite !orb_true_iff, !Z.eqb_eq in Hc.
  assert (E : fst c = 0x09 \/ fst c = 0x0A \/ fst c = 0x0C \/ fst c = 0x0D) by lia.
  destruct E as [-> |[-> |[-> | ->]]]; discriminate.
Qed.

(** X16.  Every candidate [main.go] extracts from a decoded payload is
    valid UTF-8 of at least four runes, each a letter, a number or the
    space character: of the white space the pattern admits, only the
    space can occur. *)
Theorem X16_main_candidates {T : unicode.Tables} (data : list byte)
    (c : gostring) :
  In c (regexp.FindAllString main_go.msgPattern (main_go.decodeUTF8 data)) ->
  (main_go.minMsgLength <= length (utf8.runes c))%nat
  /\ Forall (fun ch : chunk =>
               fst ch <> utf8.RuneError
               /\ unicode.IsLetter (fst ch) || unicode.IsNumber (fst ch)
                  || (fst ch =? 0x20) = true)
            (utf8.runes c).
Proof.
  intros Hin.
  assert (Hn : (1 <= regexp.atLeast main_go.msgPattern)%nat)
    by (cbn; unfold main_go.minMsgLength; lia).
  destruct (decodeUTF8_shape data) as (cs & Hcs & E).
  rewrite E in Hin. rewrite Join_Fields_valid in Hin by (now apply good_Valid).
  pose proof (joinC_fields_good cs Hcs) as Hg.
  unfold regexp.FindAllString in Hin.
  rewrite runes_valid in Hin by (now apply good_Valid).
  fold (findAll main_go.msgPattern (joinC (strings.fields_aux [] cs))) in Hin.
  pose proof (findAll_Extraction main_go.msgPattern Hn
                (joinC (strings.fields_aux [] cs))) as HE.
  apply in_map_iff in Hin. destruct Hin as (m & <- & Hm).
  pose proof (Extraction_matches _ _ _ HE) as H1.
  pose proof (Extraction_Forall _ _ _ _ HE Hg) as H2.
  rewrite Forall_forall in H1, H2.
  destruct (H1 m Hm) as [Hc Hl]. specialize (H2 m Hm).
  rewrite runes_valid by (now apply good_Valid).
  split; [exact Hl|].
  rewrite Forall_forall in *. intros ch Hch. split.
  - exact (proj1 (proj2 (proj2 (H2 ch Hch)))).
  - apply good_class_rune; auto.
Qed.

Lemma X16_main_candidates_witness :
  (main_go.minMsgLength <= length (utf8.runes (lit "hello world")))%nat.
Proof.
  apply (X16_main_candidates (T := unicode.Latin1Only)
           (lit "ab!hello world?") (lit "hello world")).
  vm_compute. left. reflexivity.
Defined.
